(** * mango-explorer: the market-making reconciliation and resilience core

    A shallow embedding of the Python sources
      - [mango/marketmaking/simplemarketmaker.py] ([orders_require_action]),
      - [mango/rootbank.py] ([RootBank.find_by_address]),
      - [mango/marketmaking/marketmaker.py] ([MarketMaker.pulse]),
    together with the two components the package imports but whose
    modules are documented only by the specification and the tests
    ([RetryWithPauses], [OrderTracker]).

    Conventions.
      - A Python [Decimal] is a rational number [Q]: a finite decimal
        (not a NaN or an infinity).  A sum, a difference and a product
        are rounded as the default context of [decimal] rounds them, to
        28 significant digits, ties to even; the exponent is not
        bounded.  Comparisons of [Decimal]s are exact in Python as well.
      - A Python call that may raise returns a [result]; [Raise e] is an
        instance of the class [Exception], the class the handlers of the
        sources name.
      - [EventSource.on_next] runs the subscribers of the event source
        and raises when one of them raises, like any other call.
      - Logging calls are left out: they do not take part in any
        property stated here. *)

From Stdlib Require Import QArith Qabs Lqa Qround Qpower.
From stdpp Require Import base option list sorting gmap strings.

Set Default Proof Using "Type".

(** ** Results of fallible calls *)

Inductive result (E A : Type) : Type :=
| Ok (a : A)
| Raise (e : E).
Arguments Ok {E A} a.
Arguments Raise {E A} e.

(** ** Decimals *)

Abbreviation Decimal := Q (only parsing).

Definition Decimal_lt (x y : Decimal) : bool :=
  match (x ?= y)%Q with Lt => true | _ => false end.

Definition Decimal_gt (x y : Decimal) : bool := Decimal_lt y x.

(** [decimal.getcontext().prec] of the default context. *)
Definition precision : Z := 28.

(** The number of decimal digits of a positive integer not above
    [fuel]. *)
Fixpoint digits (fuel : positive) (n : Z) : Z :=
  if (n <? 10)%Z then 1%Z
  else match fuel with
       | xH => 1%Z
       | xO fuel' | xI fuel' => (1 + digits fuel' (n / 10))%Z
       end.

(** The adjusted exponent of a positive number: the exponent of its
    leading digit. *)
Definition adjusted (x : Q) : Z :=
  let k := (digits (Z.to_pos (Qnum x)) (Qnum x) - digits (Qden x) (Z.pos (Qden x)))%Z in
  if Qle_bool (10 ^ k)%Q x then k else (k - 1)%Z.

(** [ROUND_HALF_EVEN] to an integer. *)
Definition round_half_even (q : Q) : Z :=
  let f := Qfloor q in
  match (q - inject_Z f ?= 1 # 2)%Q with
  | Lt => f
  | Gt => (f + 1)%Z
  | Eq => if Z.even f then f else (f + 1)%Z
  end.

(** A positive number rounded to [precision] significant digits. *)
Definition round_positive (x : Q) : Q :=
  let e := (adjusted x - (precision - 1))%Z in
  (inject_Z (round_half_even (x / 10 ^ e)) * 10 ^ e)%Q.

(** The rounding of the context: what an arithmetic operation returns
    for the exact result [x]. *)
Definition Decimal_round (x : Q) : Decimal :=
  match (x ?= 0)%Q with
  | Eq => 0%Q
  | Gt => round_positive x
  | Lt => (- round_positive (- x))%Q
  end.

(** [x + y], [x - y] and [x * y] on [Decimal]s. *)
Definition Decimal_add (x y : Decimal) : Decimal := Decimal_round (x + y).
Definition Decimal_sub (x y : Decimal) : Decimal := Decimal_round (x - y).
Definition Decimal_mul (x y : Decimal) : Decimal := Decimal_round (x * y).

Lemma Decimal_lt_spec (x y : Decimal) : Decimal_lt x y = true <-> (x < y)%Q.
Proof.
  unfold Decimal_lt. rewrite Qlt_alt.
  destruct (x ?= y)%Q; split; congruence.
Qed.

Lemma Decimal_gt_spec (x y : Decimal) : Decimal_gt x y = true <-> (y < x)%Q.
Proof. apply Decimal_lt_spec. Qed.

(** Rounding at work: [1 + 1E-28] is [1], and a tie goes to the even
    neighbour. *)
Example round_drops_29th_digit :
  (Decimal_add 1 (1 # 10000000000000000000000000000) == 1)%Q.
Proof. reflexivity. Qed.

Example round_ties_to_even :
  (Decimal_round 12345678901234567890123456785 == 12345678901234567890123456780)%Q
  /\ (Decimal_round 12345678901234567890123456775 == 12345678901234567890123456780)%Q.
Proof. split; reflexivity. Qed.

Lemma digits_spec (fuel : positive) :
  forall n : Z, (0 < n <= Z.pos fuel)%Z ->
    (1 <= digits fuel n)%Z
    /\ (10 ^ (digits fuel n - 1) <= n < 10 ^ digits fuel n)%Z.
Proof.
  assert (Hstep : forall fuel' n,
             (forall m, (0 < m <= Z.pos fuel')%Z ->
                        (1 <= digits fuel' m)%Z
                        /\ (10 ^ (digits fuel' m - 1) <= m < 10 ^ digits fuel' m)%Z) ->
             (10 <= n)%Z -> (n / 10 <= Z.pos fuel')%Z ->
             (1 <= 1 + digits fuel' (n / 10))%Z
             /\ (10 ^ (1 + digits fuel' (n / 10) - 1) <= n
                 < 10 ^ (1 + digits fuel' (n / 10)))%Z).
  { intros fuel' n IH Hn Hfuel.
    destruct (IH (n / 10)%Z) as (Hd & Hlow & Hhigh).
    { split; [|done]. apply Z.div_str_pos. lia. }
    split; [lia|].
    replace (1 + digits fuel' (n / 10) - 1)%Z
      with (Z.succ (digits fuel' (n / 10) - 1)) by lia.
    replace (1 + digits fuel' (n / 10))%Z with (Z.succ (digits fuel' (n / 10))) by lia.
    rewrite !Z.pow_succ_r by lia.
    pose proof (Z.div_mod n 10 ltac:(lia)) as Hdiv.
    pose proof (Z.mod_pos_bound n 10 ltac:(lia)) as Hmod.
    lia. }
  induction fuel as [fuel' IH|fuel' IH|]; intros n Hn; cbn [digits];
    destruct (Z.ltb_spec n 10) as [Hsmall|Hlarge];
    try (split; [lia|]; cbn; lia).
  - apply Hstep; [done..|]. apply Z.div_le_upper_bound; lia.
  - apply Hstep; [done..|]. apply Z.div_le_upper_bound; lia.
Qed.

Lemma pow10_pos (k : Z) : (0 < 10 ^ k)%Q.
Proof. by apply Qpower_0_lt. Qed.

Lemma pow10_succ (k : Z) : (10 ^ (k + 1) == 10 * 10 ^ k)%Q.
Proof. rewrite Qpower_plus by done. cbn. ring. Qed.

Lemma pow10_le (j k : Z) : (j <= k)%Z -> (10 ^ j <= 10 ^ k)%Q.
Proof. intros Hjk. apply Qpower_le_compat_l; [done|]. by vm_compute. Qed.

Lemma pow10_minus (j k : Z) : (10 ^ (j - k) == 10 ^ j / 10 ^ k)%Q.
Proof. by apply Qpower_minus. Qed.

Lemma pow10_nat (k : Z) : (0 <= k)%Z -> (inject_Z (10 ^ k) == 10 ^ k)%Q.
Proof. intros Hk. by rewrite Zpower_Qpower. Qed.

Lemma Qdiv_lt_cross (a b c d : Q) :
  (0 < b)%Q -> (0 < d)%Q -> (a * d < c * b)%Q -> (a / b < c / d)%Q.
Proof.
  intros Hb Hd H.
  assert (H1 : (a / b == a * d / (b * d))%Q) by (field; lra).
  assert (H2 : (c / d == c * b / (b * d))%Q) by (field; lra).
  rewrite H1, H2. apply Qmult_lt_compat_r; [|done].
  apply Qinv_lt_0_compat. nra.
Qed.

Lemma Qdiv_le_cross (a b c d : Q) :
  (0 < b)%Q -> (0 < d)%Q -> (a * d <= c * b)%Q -> (a / b <= c / d)%Q.
Proof.
  intros Hb Hd H.
  assert (H1 : (a / b == a * d / (b * d))%Q) by (field; lra).
  assert (H2 : (c / d == c * b / (b * d))%Q) by (field; lra).
  rewrite H1, H2. apply Qmult_le_compat_r; [done|].
  apply Qlt_le_weak, Qinv_lt_0_compat. nra.
Qed.

Lemma adjusted_spec (x : Q) :
  (0 < x)%Q -> (10 ^ adjusted x <= x)%Q /\ (x < 10 ^ (adjusted x + 1))%Q.
Proof.
  intros Hx. destruct x as [n d]. unfold adjusted. cbn [Qnum Qden].
  assert (Hn : (0 < n)%Z) by (unfold Qlt in Hx; cbn in Hx; lia).
  destruct (digits_spec (Z.to_pos n) n) as (Hdn & Hn1 & Hn2); [lia|].
  destruct (digits_spec d (Z.pos d)) as (Hdd & Hd1 & Hd2); [lia|].
  set (dn := digits (Z.to_pos n) n) in *. set (dd := digits d (Z.pos d)) in *.
  assert (Hx' : (n # d == inject_Z n / inject_Z (Z.pos d))%Q) by apply Qmake_Qdiv.
  assert (HN : (0 < inject_Z n)%Q) by (change 0%Q with (inject_Z 0); by rewrite <- Zlt_Qlt).
  assert (HD : (0 < inject_Z (Z.pos d))%Q) by done.
  assert (HN1 : (10 ^ (dn - 1) <= inject_Z n)%Q)
    by (rewrite <- pow10_nat by lia; by rewrite <- Zle_Qle).
  assert (HN2 : (inject_Z n < 10 ^ dn)%Q)
    by (rewrite <- pow10_nat by lia; by rewrite <- Zlt_Qlt).
  assert (HD1 : (10 ^ (dd - 1) <= inject_Z (Z.pos d))%Q)
    by (rewrite <- pow10_nat by lia; by rewrite <- Zle_Qle).
  assert (HD2 : (inject_Z (Z.pos d) < 10 ^ dd)%Q)
    by (rewrite <- pow10_nat by lia; by rewrite <- Zlt_Qlt).
  pose proof (pow10_pos (dn - 1)) as Hp1. pose proof (pow10_pos dn) as Hp2.
  pose proof (pow10_pos (dd - 1)) as Hp3. pose proof (pow10_pos dd) as Hp4.
  destruct (Qle_bool (10 ^ (dn - dd)) (n # d)) eqn:Hle.
  - apply Qle_bool_iff in Hle. split; [done|].
    replace (dn - dd + 1)%Z with (dn - (dd - 1))%Z by lia.
    rewrite pow10_minus, Hx'. apply Qdiv_lt_cross; [done..|]. nra.
  - assert (Hlt : (n # d < 10 ^ (dn - dd))%Q).
    { apply Qnot_le_lt. intros H. apply Qle_bool_iff in H. congruence. }
    replace (dn - dd - 1 + 1)%Z with (dn - dd)%Z by lia. split; [|done].
    replace (dn - dd - 1)%Z with (dn - 1 - dd)%Z by lia.
    rewrite pow10_minus, Hx'. apply Qdiv_le_cross; [done..|]. nra.
Qed.

Lemma round_half_even_cases (q : Q) :
  let f := Qfloor q in
  (round_half_even q = f /\ (q - inject_Z f <= 1 # 2)%Q)
  \/ (round_half_even q = (f + 1)%Z /\ (1 # 2 <= q - inject_Z f)%Q).
Proof.
  cbv zeta. unfold round_half_even.
  destruct (q - inject_Z (Qfloor q) ?= 1 # 2)%Q eqn:Hcmp.
  - apply Qeq_alt in Hcmp.
    destruct (Z.even (Qfloor q)); [left|right]; (split; [reflexivity|lra]).
  - apply Qlt_alt in Hcmp. left. split; [reflexivity|lra].
  - apply Qgt_alt in Hcmp. right. split; [reflexivity|lra].
Qed.

Lemma round_half_even_lower (a : Z) (q : Q) :
  (inject_Z a <= q)%Q -> (a <= round_half_even q)%Z.
Proof.
  intros Ha. apply Qfloor_resp_le in Ha. rewrite Qfloor_Z in Ha.
  destruct (round_half_even_cases q) as [[-> _]|[-> _]]; lia.
Qed.

Lemma round_half_even_upper (b : Z) (q : Q) :
  (q <= inject_Z b)%Q -> (round_half_even q <= b)%Z.
Proof.
  intros Hb. pose proof (Qfloor_resp_le _ _ Hb) as Hfloor. rewrite Qfloor_Z in Hfloor.
  destruct (round_half_even_cases q) as [[-> _]|[-> Hhalf]]; [done|].
  destruct (Z.eq_dec (Qfloor q) b) as [Heq|Hne]; [|lia].
  rewrite Heq in Hhalf. lra.
Qed.

Lemma round_half_even_le (q1 q2 : Q) :
  (q1 <= q2)%Q -> (round_half_even q1 <= round_half_even q2)%Z.
Proof.
  intros Hle. pose proof (Qfloor_resp_le _ _ Hle) as Hfloor.
  destruct (Z.eq_dec (Qfloor q1) (Qfloor q2)) as [Heq|Hne].
  - unfold round_half_even. rewrite Heq.
    destruct (q1 - inject_Z (Qfloor q2) ?= 1 # 2)%Q eqn:H1;
      destruct (q2 - inject_Z (Qfloor q2) ?= 1 # 2)%Q eqn:H2;
      first [apply Qeq_alt in H1 | apply Qlt_alt in H1 | apply Qgt_alt in H1];
      first [apply Qeq_alt in H2 | apply Qlt_alt in H2 | apply Qgt_alt in H2];
      try (exfalso; lra); destruct (Z.even (Qfloor q2)); lia.
  - destruct (round_half_even_cases q1) as [[-> _]|[-> _]];
      destruct (round_half_even_cases q2) as [[-> _]|[-> _]]; lia.
Qed.

Lemma round_positive_bounds (x : Q) :
  (0 < x)%Q ->
  let e := (adjusted x - (precision - 1))%Z in
  (10 ^ (precision - 1) * 10 ^ e <= round_positive x)%Q
  /\ (round_positive x <= 10 ^ precision * 10 ^ e)%Q.
Proof.
  intros Hx e. destruct (adjusted_spec x Hx) as [Hlow Hhigh].
  pose proof (pow10_pos e) as He. unfold round_positive. fold e.
  assert (Hk : (10 ^ adjusted x == 10 ^ (precision - 1) * 10 ^ e)%Q).
  { rewrite <- Qpower_plus by done. subst e. f_equiv. lia. }
  assert (Hk' : (10 ^ (adjusted x + 1) == 10 ^ precision * 10 ^ e)%Q).
  { rewrite <- Qpower_plus by done. subst e. f_equiv. lia. }
  rewrite Hk in Hlow. rewrite Hk' in Hhigh.
  assert (Hs1 : (inject_Z (10 ^ (precision - 1)) <= x / 10 ^ e)%Q).
  { rewrite pow10_nat by done. by apply Qle_shift_div_l. }
  assert (Hs2 : (x / 10 ^ e <= inject_Z (10 ^ precision))%Q).
  { rewrite pow10_nat by done. apply Qle_shift_div_r; [done|]. lra. }
  apply round_half_even_lower in Hs1. apply round_half_even_upper in Hs2.
  rewrite Zle_Qle in Hs1. rewrite Zle_Qle in Hs2.
  rewrite pow10_nat in Hs1 by done. rewrite pow10_nat in Hs2 by done.
  split; apply Qmult_le_compat_r; lra.
Qed.

Lemma round_positive_le (x y : Q) :
  (0 < x)%Q -> (x <= y)%Q -> (round_positive x <= round_positive y)%Q.
Proof.
  intros Hx Hxy. assert (Hy : (0 < y)%Q) by lra.
  destruct (adjusted_spec x Hx) as [Hx1 Hx2].
  destruct (adjusted_spec y Hy) as [Hy1 Hy2].
  assert (Hadj : (adjusted x <= adjusted y)%Z).
  { destruct (Z_le_gt_dec (adjusted x) (adjusted y)) as [|Hgt]; [done|]. exfalso.
    pose proof (pow10_le (adjusted y + 1) (adjusted x) ltac:(lia)). lra. }
  destruct (Z.eq_dec (adjusted x) (adjusted y)) as [Heq|Hne].
  - unfold round_positive. rewrite Heq.
    set (e := (adjusted y - (precision - 1))%Z). pose proof (pow10_pos e) as He.
    apply Qmult_le_compat_r; [|lra].
    rewrite <- Zle_Qle. apply round_half_even_le.
    apply Qmult_le_compat_r; [done|]. by apply Qlt_le_weak, Qinv_lt_0_compat.
  - destruct (round_positive_bounds x Hx) as [_ Hupper].
    destruct (round_positive_bounds y Hy) as [Hlower _].
    cbv zeta in Hupper, Hlower.
    set (ex := (adjusted x - (precision - 1))%Z) in *.
    set (ey := (adjusted y - (precision - 1))%Z) in *.
    assert (Hstep : (10 ^ precision * 10 ^ ex <= 10 ^ (precision - 1) * 10 ^ ey)%Q).
    { rewrite <- !Qpower_plus by done. apply pow10_le. subst ex ey. lia. }
    lra.
Qed.

Lemma round_positive_pos (x : Q) : (0 < x)%Q -> (0 < round_positive x)%Q.
Proof.
  intros Hx. destruct (round_positive_bounds x Hx) as [Hlower _]. cbv zeta in Hlower.
  pose proof (pow10_pos (precision - 1)).
  pose proof (pow10_pos (adjusted x - (precision - 1))). nra.
Qed.

Lemma Decimal_round_le (x y : Q) : (x <= y)%Q -> (Decimal_round x <= Decimal_round y)%Q.
Proof.
  intros Hxy. unfold Decimal_round.
  destruct (x ?= 0)%Q eqn:Hx; destruct (y ?= 0)%Q eqn:Hy;
    first [apply Qeq_alt in Hx | apply Qlt_alt in Hx | apply Qgt_alt in Hx];
    first [apply Qeq_alt in Hy | apply Qlt_alt in Hy | apply Qgt_alt in Hy];
    try lra.
  - pose proof (round_positive_pos y Hy). lra.
  - pose proof (round_positive_pos (- x) ltac:(lra)). lra.
  - pose proof (round_positive_le (- y) (- x) ltac:(lra) ltac:(lra)). lra.
  - pose proof (round_positive_pos (- x) ltac:(lra)).
    pose proof (round_positive_pos y Hy). lra.
  - by apply round_positive_le.
Qed.

#[export] Instance Decimal_round_comp : Proper (Qeq ==> Qeq) Decimal_round.
Proof.
  intros x y Hxy. apply Qle_antisym; apply Decimal_round_le; lra.
Qed.


(** ** Orders *)

Inductive Side : Type := BUY | SELL.

(** Modelled from the spec: the class [mango.Order] is missing from the
    sources.  Its fields are the ones of section 3: the exchange-assigned
    identifier (absent until the exchange reports one), the locally
    assigned correlation id ([client_id] in the sources), the side, the
    price and the size. *)
Record Order : Type := mkOrder {
  id : option Z;
  client_id : Z;
  side : Side;
  price : Decimal;
  size : Decimal
}.

(** Modelled from the spec: [Order.with_client_id], the step of section 3
    that attaches the correlation id; the other fields are kept. *)
Definition with_client_id (o : Order) (cid : Z) : Order :=
  {| id := id o; client_id := cid; side := side o;
     price := price o; size := size o |}.

(** ** [SimpleMarketMaker.orders_require_action] *)

Module SimpleMarketMaker.

Record SimpleMarketMaker : Type := mkSimpleMarketMaker {
  spread_ratio : Decimal;
  position_size_ratio : Decimal;
  existing_order_tolerance : Decimal;
  pause : Z;
  stop_requested : bool
}.

(** The nested helper of [orders_require_action]. *)
Definition within_tolerance (target_value order_value tolerance : Decimal) : bool :=
  let tolerated := Decimal_mul order_value tolerance in
  Decimal_lt order_value (Decimal_add target_value tolerated)
  && Decimal_gt order_value (Decimal_sub target_value tolerated).

Definition orders_require_action (self : SimpleMarketMaker)
    (orders : list Order) (price' size' : Decimal) : bool :=
  Nat.eqb (length orders) 0
  || negb (forallb
             (fun order =>
                within_tolerance price' (price order) (existing_order_tolerance self)
                && within_tolerance size' (size order) (existing_order_tolerance self))
             orders).

(** Fixtures: market makers with a tolerance of one percent, of ten
    percent and of zero, and a resting buy order. *)
Definition one_percent : SimpleMarketMaker :=
  mkSimpleMarketMaker (1 # 100) (1 # 10) (1 # 100) 10%Z false.



(** A market maker whose tolerance, 1E-28, and spread ratio, 1E-29,
    are below what 28 digits resolve next to 1. *)
Definition hairline : SimpleMarketMaker :=
  mkSimpleMarketMaker (1 # 100000000000000000000000000000) (1 # 10)
                      (1 # 10000000000000000000000000000) 10%Z false.

Definition buy (p s : Decimal) : Order := mkOrder None 0%Z BUY p s.

(** The band the code tests: strictly inside, and relative to the value
    of the existing order; the product and the two bounds are rounded
    as [Decimal] rounds them. *)
Definition in_band (tolerance target_value order_value : Decimal) : Prop :=
  let tolerated := Decimal_mul order_value tolerance in
  (Decimal_sub target_value tolerated < order_value)%Q
  /\ (order_value < Decimal_add target_value tolerated)%Q.

(** The same band in exact arithmetic. *)
Definition in_exact_band (tolerance target_value order_value : Decimal) : Prop :=
  (Qabs (order_value - target_value) < tolerance * order_value)%Q.




#[export] Instance in_band_comp : Proper (Qeq ==> Qeq ==> Qeq ==> iff) in_band.
Proof.
  intros t t' Ht target target' Htarget o o' Ho. unfold in_band. cbv zeta.
  unfold Decimal_sub, Decimal_add, Decimal_mul. by rewrite Ht, Htarget, Ho.
Qed.




(** The scenario of the specification: a resting BUY 100 @ 10.00 against
    a desired 10.05 needs no action at one percent, against 10.20 it
    does. *)
Example scenario_within :
  orders_require_action one_percent [buy 10 100] (1005 # 100) 100 = false.
Proof. reflexivity. Qed.

Example scenario_outside :
  orders_require_action one_percent [buy 10 100] (1020 # 100) 100 = true.
Proof. reflexivity. Qed.

(** Rounding decides at the edge: with a tolerance of 1E-28 both
    bounds of the band around 1 round to 1, and an order equal to the
    target requires action although the tolerance is positive. *)
Example rounding_closes_band :
  orders_require_action hairline [buy 1 1] 1 1 = true
  /\ in_exact_band (existing_order_tolerance hairline) 1 1.
Proof. split; [reflexivity|]. unfold in_exact_band. reflexivity. Qed.





End SimpleMarketMaker.

(** ** [RootBank.find_by_address] *)

Module RootBank.

(** A [PublicKey] is its 32 bytes; [==] on keys compares the bytes. *)
Definition PublicKey : Type := list Byte.byte.

#[global] Instance byte_eq_dec : EqDecision Byte.byte := Byte.byte_eq_dec.

Inductive Version : Type := UNSPECIFIED | V1 | V2 | V3 | V4 | V5.

Record AccountInfo : Type := mkAccountInfo {
  ai_address : PublicKey;
  executable : bool;
  lamports : Decimal;
  owner : PublicKey;
  rent_epoch : Decimal;
  data : list Byte.byte
}.

Record Metadata : Type := mkMetadata {
  data_type : Z;
  md_version : Version;
  is_initialized : bool
}.

Record RootBank : Type := mkRootBank {
  account_info : AccountInfo;
  version : Version;
  meta_data : Metadata;
  node_banks : list PublicKey;
  deposit_index : Decimal;
  borrow_index : Decimal;
  last_updated : Z
}.

(** [AddressableAccount.address]. *)
Definition address (self : RootBank) : PublicKey := ai_address (account_info self).

(** The exceptions [find_by_address] raises, with the values their
    messages are formatted from; [IndexError] is what [found[0]] raises
    on an empty list. *)
Inductive Exception : Type :=
| NotFound (address : PublicKey) (values : list RootBank)
| MatchedMultiple (address : PublicKey) (values : list RootBank)
| IndexError.

(** [values] is a Python list shared with the caller: the second
    component is its contents when the call ends. *)
Definition find_by_address (values : list RootBank) (address' : PublicKey)
    : result Exception RootBank * list RootBank :=
  let found := filter (fun value => address value = address') values in
  if Nat.eqb (length found) 0 then (Raise (NotFound address' values), values)
  else if Nat.ltb 1 (length found) then (Raise (MatchedMultiple address' values), values)
  else match found with
       | value :: _ => (Ok value, values)
       | [] => (Raise IndexError, values)
       end.

(** How many elements of [values] have the address. *)
Definition matches (values : list RootBank) (address' : PublicKey) : nat :=
  length (filter (fun value => address value = address') values).

(** Fixtures, after [fake_public_key] and [fake_token_info] of the
    tests. *)
Definition fake_public_key (last : Byte.byte) : PublicKey :=
  replicate 31 Byte.x00 ++ [last].

Definition fake_root_bank (key : PublicKey) : RootBank :=
  mkRootBank (mkAccountInfo key false 0 key 0 [Byte.x00]) V1
             (mkMetadata 0 V1 true) [] 5 2 0.

Definition key1 : PublicKey := fake_public_key Byte.x01.
Definition key2 : PublicKey := fake_public_key Byte.x02.
Definition key3 : PublicKey := fake_public_key Byte.x03.

Example find_present :
  fst (find_by_address [fake_root_bank key1; fake_root_bank key2] key2)
  = Ok (fake_root_bank key2).
Proof. vm_compute. reflexivity. Qed.

Example find_absent :
  fst (find_by_address [fake_root_bank key1; fake_root_bank key2] key3)
  = Raise (NotFound key3 [fake_root_bank key1; fake_root_bank key2]).
Proof. vm_compute. reflexivity. Qed.

Example find_duplicated :
  fst (find_by_address [fake_root_bank key1; fake_root_bank key1] key1)
  = Raise (MatchedMultiple key1 [fake_root_bank key1; fake_root_bank key1]).
Proof. vm_compute. reflexivity. Qed.

Lemma filter_singleton_index {A} (P : A -> Prop) `{!forall x, Decision (P x)}
    (l : list A) (v : A) :
  filter P l = [v] ->
  exists i, l !! i = Some v /\ P v
            /\ forall j w, l !! j = Some w -> P w -> j = i.
Proof.
  induction l as [|x l IH]; [discriminate|].
  rewrite filter_cons. destruct (decide (P x)) as [Hx|Hx].
  - intros [= -> Hnil]. exists 0%nat. repeat split; [done|].
    intros [|j] w Hj Hw; [done|]. exfalso.
    assert (Hin : w ∈ filter P l).
    { apply list_elem_of_filter. split; [done|]. eapply list_elem_of_lookup_2, Hj. }
    rewrite Hnil in Hin. by apply not_elem_of_nil in Hin.
  - intros Hl. destruct (IH Hl) as (i & Hi & Hv & Huniq).
    exists (S i). repeat split; [done..|].
    intros [|j] w Hj Hw.
    + injection Hj as ->. done.
    + f_equal. eauto.
Qed.

Lemma find_by_address_cases (values : list RootBank) (address' : PublicKey) :
  match filter (fun value => address value = address') values with
  | [] => fst (find_by_address values address') = Raise (NotFound address' values)
  | [value] => fst (find_by_address values address') = Ok value
  | _ :: _ :: _ =>
      fst (find_by_address values address') = Raise (MatchedMultiple address' values)
  end.
Proof.
  unfold find_by_address. cbv zeta.
  destruct (filter _ values) as [|v [|v' rest]]; reflexivity.
Qed.

(** C10.  [find_by_address] returns the element whose address is the
    given one when exactly one element of the sequence has it (there is
    one position holding it, and no other position holds an element with
    that address); it raises exactly when no element or more than one
    element has the address; and the sequence it was given is left as it
    was. *)
Theorem find_by_address_unique (values : list RootBank) (address' : PublicKey) :
  (forall value, fst (find_by_address values address') = Ok value ->
     exists i, values !! i = Some value /\ address value = address'
               /\ forall j other, values !! j = Some other ->
                                  address other = address' -> j = i)
  /\ (matches values address' = 1%nat ->
      exists value, fst (find_by_address values address') = Ok value)
  /\ ((exists e, fst (find_by_address values address') = Raise e)
      <-> matches values address' = 0%nat \/ (1 < matches values address')%nat)
  /\ snd (find_by_address values address') = values.
Proof.
  pose proof (find_by_address_cases values address') as Hcases.
  unfold matches.
  destruct (filter _ values) as [|v [|v' rest]] eqn:Hfound; cbn [length].
  - repeat split.
    + intros value Hok. congruence.
    + discriminate.
    + intros _. by left.
    + intros _. eauto.
    + unfold find_by_address. cbv zeta. by rewrite Hfound.
  - repeat split.
    + intros value Hok. assert (value = v) as -> by congruence.
      by apply filter_singleton_index in Hfound.
    + intros _. eauto.
    + intros [e He]. congruence.
    + intros [?|?]; [discriminate | lia].
    + unfold find_by_address. cbv zeta. by rewrite Hfound.
  - repeat split.
    + intros value Hok. congruence.
    + discriminate.
    + intros _. right. lia.
    + intros _. eauto.
    + unfold find_by_address. cbv zeta. by rewrite Hfound.
Qed.

End RootBank.

(** ** [RetryWithPauses] *)

Module RetryWithPauses.

Section Retrier.

(** [Store] is whatever the wrapped operation reads and writes (in the
    tests, the counter [FuncScope.called]); [exn] the exceptions it
    raises; [A] what it returns. *)
Context {Store exn A : Type}.

(** Modelled from the spec: the class [RetryWithPauses] of
    [mango/retrier.py] is missing from the sources (only
    [tests/test_retrier.py] is there).  The fields are the ones the
    test of the constructor reads; [run] follows section 4.3 and its
    state machine. *)
Record RetryWithPauses : Type := mkRetryWithPauses {
  name : string;
  func : Store -> result exn A * Store;
  pauses : list Decimal
}.

(** Modelled from the spec: the states of the state machine of section
    4.3; [Succeeded] carries the result and [Exhausted] the failure that
    is propagated. *)
Inductive State : Type :=
| NotStarted
| Attempting (k : nat)
| Succeeded (a : A)
| Exhausted (e : exn).

(** What a run leaves behind: the store, the outcome of every call of
    the operation in order, and the pauses taken in order. *)
Record World : Type := mkWorld {
  store : Store;
  attempts : list (result exn A);
  slept : list Decimal
}.

(** Modelled from the spec: one transition of the state machine of
    section 4.3.  [Attempting k] calls the operation; a failure with
    [k < N] takes pause [k] (1-indexed) and moves to
    [Attempting (k + 1)], a failure of attempt [N] is terminal. *)
Definition step (self : RetryWithPauses) (c : State * World) : State * World :=
  let (st, w) := c in
  match st with
  | NotStarted => (Attempting 1, w)
  | Attempting k =>
      let (r, s') := func self (store w) in
      let w' := mkWorld s' (attempts w ++ [r]) (slept w) in
      match r with
      | Ok a => (Succeeded a, w')
      | Raise e =>
          if (k <? length (pauses self))%nat
          then (Attempting (S k),
                mkWorld s' (attempts w ++ [r])
                        (slept w ++ [default 0%Q (pauses self !! (k - 1)%nat)]))
          else (Exhausted e, w')
      end
  | Succeeded a => (Succeeded a, w)
  | Exhausted e => (Exhausted e, w)
  end.

Fixpoint iterate (self : RetryWithPauses) (fuel : nat) (c : State * World)
    : State * World :=
  match fuel with
  | O => c
  | S fuel' => iterate self fuel' (step self c)
  end.

(** Modelled from the spec: [run] starts the machine and drives it to
    a terminal state; one transition to start and at most
    [max N 1] attempts are enough. *)
Definition run (self : RetryWithPauses) (s : Store) : State * World :=
  iterate self (2 + length (pauses self)) (NotStarted, mkWorld s [] []).

Definition terminal (st : State) : bool :=
  match st with
  | Succeeded _ | Exhausted _ => true
  | NotStarted | Attempting _ => false
  end.

Definition called (w : World) : nat := length (attempts w).

End Retrier.

(** The operation of the tests: it counts its calls in
    [FuncScope.called] and raises. *)
Definition failing_func (called : nat) : result string nat * nat :=
  (Raise "Test", S called).

(** [lambda: 1]. *)
Definition constant_func (called : nat) : result string nat * nat :=
  (Ok 1%nat, called).

Definition retrier (func : nat -> result string nat * nat) (pauses : list Decimal)
    : RetryWithPauses :=
  mkRetryWithPauses "Test" func pauses.

Lemma iterate_terminal {Store exn A : Type} (self : @RetryWithPauses Store exn A)
    (fuel : nat) (st : State) (w : World) :
  terminal st = true -> iterate self fuel (st, w) = (st, w).
Proof.
  intros Hst. induction fuel as [|fuel IH]; [reflexivity|].
  destruct st; try discriminate; exact IH.
Qed.

(** From [Attempting k], an operation that raises on every call is
    called once per remaining attempt and the machine ends exhausted
    with the last failure. *)
Lemma always_raises_from {Store exn A : Type} (self : @RetryWithPauses Store exn A)
    (Hraises : forall s, exists e, fst (func self s) = Raise e) :
  forall (d k fuel : nat) (w : @World Store exn A),
    (S k + d = length (pauses self))%nat -> (d < fuel)%nat ->
    exists e w',
      iterate self fuel (Attempting (S k), w) = (Exhausted e, w')
      /\ called w' = (called w + S d)%nat
      /\ last (attempts w') = Some (Raise e)
      /\ slept w' = slept w ++ take d (drop k (pauses self)).
Proof.
  induction d as [|d IH]; intros k fuel w Hk Hfuel.
  - destruct fuel as [|fuel]; [lia|]. cbn [iterate step].
    destruct (Hraises (store w)) as [e He].
    destruct (func self (store w)) as [r s'] eqn:Hcall. cbn in He. subst r.
    replace (S k <? length (pauses self))%nat with false
      by (symmetry; apply Nat.ltb_ge; lia).
    exists e, (mkWorld s' (attempts w ++ [Raise e]) (slept w)).
    rewrite iterate_terminal by reflexivity. unfold called. cbn.
    rewrite length_app, last_snoc, app_nil_r. cbn. repeat split; first [done | lia].
  - destruct fuel as [|fuel]; [lia|]. cbn [iterate step].
    destruct (Hraises (store w)) as [e He].
    destruct (func self (store w)) as [r s'] eqn:Hcall. cbn in He. subst r.
    replace (S k <? length (pauses self))%nat with true
      by (symmetry; apply Nat.ltb_lt; lia).
    replace (S k - 1)%nat with k by lia.
    destruct (pauses self !! k) as [p|] eqn:Hp;
      [|apply lookup_ge_None in Hp; exfalso; lia].
    destruct (IH (S k) fuel
                 (mkWorld s' (attempts w ++ [Raise e]) (slept w ++ [default 0%Q (Some p)])))
      as (e' & w' & Hrun & Hcalled & Hlast & Hslept); [lia | lia |].
    exists e', w'. repeat split; [done| |done|].
    + rewrite Hcalled. unfold called. cbn. rewrite length_app. cbn. lia.
    + rewrite Hslept. cbn [slept default]. rewrite <- app_assoc. f_equal.
      rewrite (drop_S _ _ _ Hp). reflexivity.
Qed.

(** [test_0_retry], [test_1_retry] and [test_3_retries]. *)
Example test_0_retry : store (snd (run (retrier failing_func [0%Q]) 0%nat)) = 1%nat.
Proof. reflexivity. Qed.

Example test_1_retry : store (snd (run (retrier failing_func [0%Q; 0%Q]) 0%nat)) = 2%nat.
Proof. reflexivity. Qed.

Example test_3_retries :
  store (snd (run (retrier failing_func [0%Q; 0%Q; 0%Q; 0%Q]) 0%nat)) = 4%nat.
Proof. reflexivity. Qed.

(** C4.  With a pause sequence of length [N >= 1]: when the operation
    raises on every attempt, [run] calls it exactly [N] times, takes the
    first [N - 1] pauses and ends exhausted, handing the last failure to
    its caller; when the operation succeeds on the first attempt, [run]
    calls it exactly once, takes no pause and returns its result. *)
Theorem run_call_count {Store exn A : Type} (self : @RetryWithPauses Store exn A)
    (s : Store) :
  (1 <= length (pauses self))%nat ->
  ((forall s', exists e, fst (func self s') = Raise e) ->
   exists e w, run self s = (Exhausted e, w)
               /\ called w = length (pauses self)
               /\ last (attempts w) = Some (Raise e)
               /\ slept w = take (length (pauses self) - 1) (pauses self))
  /\ (forall a, fst (func self s) = Ok a ->
      exists w, run self s = (Succeeded a, w)
                /\ called w = 1%nat /\ attempts w = [Ok a] /\ slept w = []).
Proof.
  intros HN. split.
  - intros Hraises. unfold run. cbn [Nat.add iterate step].
    destruct (always_raises_from self Hraises (length (pauses self) - 1) 0
                (S (length (pauses self))) (mkWorld s [] []))
      as (e & w & Hrun & Hcalled & Hlast & Hslept); [lia | lia |].
    exists e, w. repeat split; [done| |done|].
    + rewrite Hcalled. unfold called. cbn. lia.
    + rewrite Hslept. cbn. by rewrite drop_0.
  - intros a Ha. unfold run. cbn [Nat.add iterate step store attempts slept].
    destruct (func self s) as [r s'] eqn:Hcall. cbn in Ha. subst r.
    rewrite iterate_terminal by reflexivity.
    eexists. repeat split.
Qed.

Lemma run_call_count_witness :
  (exists e w, run (retrier failing_func [0%Q; 0%Q; 0%Q; 0%Q]) 0%nat = (Exhausted e, w)
               /\ called w = 4%nat
               /\ last (attempts w) = Some (Raise e)
               /\ slept w = [0%Q; 0%Q; 0%Q])
  /\ (exists w, run (retrier constant_func [0%Q]) 0%nat = (Succeeded 1%nat, w)
                /\ called w = 1%nat).
Proof.
  split.
  - destruct (run_call_count (retrier failing_func [0%Q; 0%Q; 0%Q; 0%Q]) 0%nat)
      as [Hfail _]; [cbn; lia|].
    apply Hfail. intros s'. exists "Test"%string. reflexivity.
  - destruct (run_call_count (retrier constant_func [0%Q]) 0%nat) as [_ Hok]; [cbn; lia|].
    destruct (Hok 1%nat eq_refl) as (w & Hrun & Hcalled & _). eauto.
Defined.

End RetryWithPauses.

(** ** [OrderTracker] *)

Module OrderTracker.

(** Modelled from the spec: the class [OrderTracker] of
    [mango/marketmaking/ordertracker.py] is missing from the sources.
    Section 3 gives its state, the tracked order set, as a mapping from
    correlation id (the [client_id] of an order) to the order. *)
Abbreviation TrackedOrderSet := (gmap Z Order) (only parsing).

(** Modelled from the spec: [track(order)] of section 4.1 inserts the
    order under its correlation id. *)
Definition track (order : Order) (tracked : TrackedOrderSet) : TrackedOrderSet :=
  <[client_id order := order]> tracked.

(** Modelled from the spec: [untrack(correlation_id)] of section 4.1
    removes the entry; removing an absent id changes nothing. *)
Definition untrack (correlation_id : Z) (tracked : TrackedOrderSet) : TrackedOrderSet :=
  delete correlation_id tracked.

(** Modelled from the spec: an order is in flight ("not yet visible
    remotely", section 4.1) when the remote view reports no order with
    its correlation id. *)
Definition in_flight (remote_order_view : list Order) (entry : Z * Order) : Prop :=
  client_id entry.2 ∉ client_id <$> remote_order_view.

#[global] Instance in_flight_dec remote_order_view entry :
  Decision (in_flight remote_order_view entry).
Proof. unfold in_flight. apply _. Defined.

(** Modelled from the spec: [existing_orders(remote_order_view)] of
    section 4.1 and of the testable properties of section 8.  The
    result is every tracked order that is still in flight followed by
    every order the remote view reports; the tracked entries whose
    correlation id the remote view reports are dropped by the call.
    The second component is the tracked set after the call. *)
Definition existing_orders (remote_order_view : list Order) (tracked : TrackedOrderSet)
    : list Order * TrackedOrderSet :=
  let still_in_flight := filter (in_flight remote_order_view) tracked in
  ((map_to_list still_in_flight).*2 ++ remote_order_view, still_in_flight).

Definition with_correlation_id (cid : Z) (orders : list Order) : list Order :=
  filter (fun order => client_id order = cid) orders.

(** Fixtures: an order placed locally under client id 7, the same
    order as the exchange reports it, and an unrelated tracked order. *)
Definition placed : Order := mkOrder None 7 BUY 10 100.
Definition reported : Order := mkOrder (Some 4242%Z) 7 BUY 10 100.
Definition other : Order := mkOrder None 3 SELL 11 50.

Example track_then_empty_view :
  (existing_orders [] (track placed (track other ∅))).1 = [placed; other].
Proof. vm_compute. reflexivity. Qed.

Example track_then_reported :
  existing_orders [reported] (track placed (track other ∅))
  = ([other; reported], track other ∅).
Proof. vm_compute. reflexivity. Qed.

Lemma existing_orders_empty_view (tracked : gmap Z Order) :
  (existing_orders [] tracked).2 = tracked.
Proof.
  unfold existing_orders. cbn. apply map_filter_id.
  intros cid order _. unfold in_flight. cbn. apply not_elem_of_nil.
Qed.

Lemma existing_orders_in_flight (view : list Order) (tracked : gmap Z Order)
    (order : Order) :
  order ∈ (map_to_list (filter (in_flight view) tracked)).*2 ->
  client_id order ∉ client_id <$> view.
Proof.
  intros Hin. apply list_elem_of_fmap in Hin as ([cid order'] & -> & Hin).
  apply elem_of_map_to_list, map_lookup_filter_Some in Hin as [_ Hflight].
  exact Hflight.
Qed.

(** C8.  For an order [o] whose correlation id is not tracked:
    [track o] followed by [existing_orders] with an empty remote view
    yields a sequence that contains [o], and leaves [o] tracked; once the
    remote view holds an order [r] with the correlation id of [o], the
    next [existing_orders] call returns [r], returns under that
    correlation id exactly the orders of the remote view (no tracked copy
    is added), and leaves no entry tracked under that id. *)
Theorem track_then_existing_orders (tracked : gmap Z Order) (o : Order) :
  tracked !! client_id o = None ->
  let tracked1 := track o tracked in
  o ∈ (existing_orders [] tracked1).1
  /\ (existing_orders [] tracked1).2 !! client_id o = Some o
  /\ forall (view : list Order) (r : Order),
       r ∈ view -> client_id r = client_id o ->
       let tracked2 := (existing_orders [] tracked1).2 in
       r ∈ (existing_orders view tracked2).1
       /\ with_correlation_id (client_id o) (existing_orders view tracked2).1
          = with_correlation_id (client_id o) view
       /\ (existing_orders view tracked2).2 !! client_id o = None.
Proof.
  intros Hfresh tracked1. subst tracked1.
  rewrite existing_orders_empty_view.
  assert (Htracked : track o tracked !! client_id o = Some o)
    by apply lookup_insert_eq.
  split; [|split; [done|]].
  - unfold existing_orders. cbn. rewrite app_nil_r.
    apply list_elem_of_fmap. exists (client_id o, o). split; [done|].
    apply elem_of_map_to_list, map_lookup_filter_Some. split; [done|].
    unfold in_flight. cbn. apply not_elem_of_nil.
  - intros view r Hr Hcid. cbv zeta. unfold existing_orders. cbn [fst snd].
    split; [|split].
    + apply elem_of_app. by right.
    + unfold with_correlation_id. rewrite filter_app.
      replace (filter _ (map_to_list _).*2) with (@nil Order); [done|].
      symmetry. apply elem_of_nil_inv. intros x [Hcx Hx]%list_elem_of_filter.
      apply existing_orders_in_flight in Hx. apply Hx.
      rewrite Hcx, <- Hcid. by apply list_elem_of_fmap_2.
    + apply map_lookup_filter_None. right. intros x Hx.
      rewrite Htracked in Hx. injection Hx as <-.
      unfold in_flight. cbn. intros Hflight. apply Hflight.
      rewrite <- Hcid. by apply list_elem_of_fmap_2.
Qed.

Lemma track_then_existing_orders_witness :
  placed ∈ (existing_orders [] (track placed (track other ∅))).1
  /\ reported ∈ (existing_orders [reported] (track placed (track other ∅))).1
  /\ (existing_orders [reported] (track placed (track other ∅))).2 !! 7%Z = None.
Proof.
  destruct (track_then_existing_orders (track other ∅) placed) as (Hin & _ & Hview).
  { vm_compute. reflexivity. }
  split; [exact Hin|].
  destruct (Hview [reported] reported) as (Hr & _ & Hgone).
  { apply list_elem_of_here. }
  { reflexivity. }
  cbv zeta in Hr, Hgone. rewrite existing_orders_empty_view in Hr, Hgone.
  split; [exact Hr | exact Hgone].
Defined.

End OrderTracker.

(** ** [MarketMaker.pulse] *)

Module MarketMaker.

(** The parts of [ModelState] that [pulse] reads:
    [model_state.not_quoting] and
    [model_state.inventory.liquidity_incentives.value].  The class is
    missing from the sources; [current_orders] stands for the remote
    view of the resting orders that the order tracker is given. *)
Record TokenValue : Type := mkTokenValue { value : Decimal }.

Record Inventory : Type := mkInventory { liquidity_incentives : TokenValue }.

Record ModelState : Type := mkModelState {
  not_quoting : bool;
  inventory : Inventory;
  current_orders : list Order
}.

(** What [OrderReconciler.reconcile] returns: [reconciled.to_cancel]
    and [reconciled.to_place]. *)
Record ReconciledOrders : Type := mkReconciledOrders {
  to_cancel : list Order;
  to_place : list Order
}.

Section Model.

(** [Env] is everything outside the market maker that its
    collaborators read and write (the ledger, the random generator,
    the clock); [exn] is the class [Exception]; [Tracker] is the state
    of the [OrderTracker]. *)
Context {Env exn Wallet Context Instruction Tracker : Type}.

(** A call of a collaborator: it may raise, and it may change the
    environment either way. *)
Definition Eff (A : Type) : Type := Env -> result exn A * Env.

(** Modelled from the spec: [mango.CombinableInstructions] is missing
    from the sources.  Section 9 describes it as a builder that
    accumulates typed operation variants and is submitted once: an
    operation is an instruction together with the statement of
    [pulse] that contributed it; [+] appends, [empty()] is the empty
    sequence. *)
Inductive Operation : Type :=
| Payer (i : Instruction)
| Cancel (o : Order) (i : Instruction)
| Place (o : Order) (i : Instruction)
| Crank (i : Instruction)
| Settle (i : Instruction)
| Redeem (i : Instruction).

Definition CombinableInstructions : Type := list Operation.

(** The collaborators, as the interfaces [pulse] calls. *)
Record MarketInstructionBuilder : Type := mkMarketInstructionBuilder {
  build_cancel_order_instructions : Order -> bool -> Eff (list Instruction);
  build_place_order_instructions : Order -> Eff (list Instruction);
  build_crank_instructions : list Z -> Eff (list Instruction);
  build_settle_instructions : Eff (list Instruction);
  build_redeem_instructions : Eff (list Instruction)
}.

(** [Chain.process] may set [not_quoting] on the model state it is
    given: it returns the model state as it leaves it. *)
Record Chain : Type := mkChain {
  process : Context -> ModelState -> Env -> result exn (list Order) * ModelState * Env
}.

(** [OrderReconciler.reconcile(model_state, existing_orders,
    desired_orders)]. *)
Record OrderReconciler : Type := mkOrderReconciler {
  reconcile : ModelState -> list Order -> list Order -> Eff ReconciledOrders
}.

(** The two methods of [self.order_tracker] that [pulse] calls, over
    whatever state the tracker keeps. *)
Record OrderTrackerOps : Type := mkOrderTrackerOps {
  existing_orders : ModelState -> Tracker -> result exn (list Order) * Tracker;
  track : Order -> Tracker -> result exn unit * Tracker
}.

(** The functions of the [mango] package that [pulse] calls directly:
    [CombinableInstructions.from_wallet], [CombinableInstructions.execute],
    [Context.random_client_id] and [datetime.now]. *)
Record Mango : Type := mkMango {
  from_wallet : Wallet -> Eff (list Instruction);
  execute : CombinableInstructions -> Context -> Eff unit;
  random_client_id : Context -> Eff Z;
  now : Eff Z
}.

(** [mango.EventSource], which is not among the sources: [on_next]
    hands the event to the subscribers, and raises when one of them
    raises. *)
Record EventSource {A : Type} : Type := mkEventSource {
  on_next : A -> Eff unit
}.

Record MarketMaker : Type := mkMarketMaker {
  mango : Mango;
  wallet : Wallet;
  market_instruction_builder : MarketInstructionBuilder;
  desired_orders_chain : Chain;
  order_reconciler : OrderReconciler;
  redeem_threshold : option Decimal;
  order_tracker_ops : OrderTrackerOps;
  pulse_complete : @EventSource Z;
  pulse_error : @EventSource exn
}.

(** Every call [pulse] makes, in the order made, with what the call
    returned ([None] when it raised); [PulseComplete] and [PulseError]
    are the [on_next] calls of the two event sources, with the event
    they are given. *)
Inductive Event : Type :=
| FromWallet (built : option (list Instruction))
| ChainProcess (desired : option (list Order))
| ExistingOrders (existing : option (list Order))
| Reconcile (existing desired : list Order) (reconciled : option ReconciledOrders)
| BuildCancelOrder (o : Order) (ok_if_missing : bool) (built : option (list Instruction))
| RandomClientId (generated : option Z)
| Track (o : Order) (tracked : option unit)
| BuildPlaceOrder (o : Order) (built : option (list Instruction))
| BuildCrank (built : option (list Instruction))
| BuildSettle (built : option (list Instruction))
| BuildRedeem (built : option (list Instruction))
| Execute (batch : CombinableInstructions)
| Now (timestamp : option Z)
| PulseComplete (timestamp : Z)
| PulseError (e : exn).

(** The state a pulse runs in: the environment, [self.order_tracker],
    the [model_state] object the caller passed, and the calls made so
    far. *)
Record World : Type := mkWorld {
  env : Env;
  order_tracker : Tracker;
  model_state : ModelState;
  trace : list Event
}.

(** A statement of [pulse]: it may raise, and the world it leaves is
    the one at the point where it returned or raised. *)
Definition M (A : Type) : Type := World -> result exn A * World.

Definition ret {A} (a : A) : M A := fun w => (Ok a, w).

Definition bind {A B} (m : M A) (k : A -> M B) : M B :=
  fun w =>
    match m w with
    | (Ok a, w') => k a w'
    | (Raise e, w') => (Raise e, w')
    end.

#[export] Instance M_ret : MRet M := @ret.
#[export] Instance M_bind : MBind M := fun A B k m => bind m k.

Definition returned {A} (r : result exn A) : option A :=
  match r with Ok a => Some a | Raise _ => None end.

(** A call of a collaborator on the environment. *)
Definition external {A} (ev : option A -> Event) (f : Eff A) : M A :=
  fun w =>
    let (r, env') := f (env w) in
    (r, mkWorld env' (order_tracker w) (model_state w) (trace w ++ [ev (returned r)])).

(** [source.on_next(a)]: the subscribers run in the environment, and
    the call raises what they raise. *)
Definition emit {A} (ev : Event) (source : @EventSource A) (a : A) : M unit :=
  external (fun _ => ev) (on_next source a).

(** A call of a method of [self.order_tracker]. *)
Definition tracker_call {A} (ev : option A -> Event)
    (f : Tracker -> result exn A * Tracker) : M A :=
  fun w =>
    let (r, tracker') := f (order_tracker w) in
    (r, mkWorld (env w) tracker' (model_state w) (trace w ++ [ev (returned r)])).

(** [self.desired_orders_chain.process(context, model_state)]. *)
Definition chain_process (chain : Chain) (context : Context) : M (list Order) :=
  fun w =>
    let '(r, model_state', env') := process chain context (model_state w) (env w) in
    (r, mkWorld env' (order_tracker w) model_state'
                (trace w ++ [ChainProcess (returned r)])).

Definition get_model_state : M ModelState := fun w => (Ok (model_state w), w).

End Model.

Section Pulse.

Context {Env exn Wallet Context Instruction Tracker : Type}.

Local Abbreviation MarketMaker' :=
  (@MarketMaker Env exn Wallet Context Instruction Tracker).
Local Abbreviation M' := (@M Env exn Instruction Tracker).
Local Abbreviation Batch := (@CombinableInstructions Instruction).

(** Lines 75-79: the loop over [reconciled.to_cancel]. *)
Fixpoint build_cancellations (self : MarketMaker') (orders : list Order)
    (cancellations : Batch) : M' Batch :=
  match orders with
  | [] => ret cancellations
  | to_cancel :: rest =>
      cancel ← external (BuildCancelOrder to_cancel true)
                  (build_cancel_order_instructions (market_instruction_builder self)
                     to_cancel true);
      build_cancellations self rest (cancellations ++ (Cancel to_cancel <$> cancel))
  end.

(** Lines 81-89: the loop over [reconciled.to_place]. *)
Fixpoint build_place_orders (self : MarketMaker') (context : Context)
    (orders : list Order) (place_orders : Batch) : M' Batch :=
  match orders with
  | [] => ret place_orders
  | to_place :: rest =>
      desired_client_id ← external RandomClientId
                             (random_client_id (mango self) context);
      let to_place_with_client_id := with_client_id to_place desired_client_id in
      tracker_call (Track to_place_with_client_id)
        (track (order_tracker_ops self) to_place_with_client_id);;
      place_order ← external (BuildPlaceOrder to_place_with_client_id)
                       (build_place_order_instructions (market_instruction_builder self)
                          to_place_with_client_id);
      build_place_orders self context rest
        (place_orders ++ (Place to_place_with_client_id <$> place_order))
  end.

(** Line 95: the test that decides whether to redeem. *)
Definition redeem_due (self : MarketMaker') (model_state : ModelState) : bool :=
  match redeem_threshold self with
  | Some threshold =>
      Decimal_gt (value (liquidity_incentives (inventory model_state))) threshold
  | None => false
  end.

(** Lines 72-96: the batch [pulse] puts together once the chain has
    been consulted and [not_quoting] is not set. *)
Definition prepare (self : MarketMaker') (context : Context)
    (payer : Batch) (desired_orders : list Order) : M' Batch :=
  model_state ← get_model_state;
  existing ← tracker_call ExistingOrders
               (existing_orders (order_tracker_ops self) model_state);
  reconciled ← external (Reconcile existing desired_orders)
                 (reconcile (order_reconciler self) model_state existing desired_orders);
  cancellations ← build_cancellations self (to_cancel reconciled) [];
  place_orders ← build_place_orders self context (to_place reconciled) [];
  crank ← external BuildCrank
            (build_crank_instructions (market_instruction_builder self) []);
  settle ← external BuildSettle
             (build_settle_instructions (market_instruction_builder self));
  model_state ← get_model_state;
  redeem ← (if redeem_due self model_state
            then built ← external BuildRedeem
                           (build_redeem_instructions (market_instruction_builder self));
                 ret (Redeem <$> built)
            else ret []);
  ret (payer ++ cancellations ++ place_orders
       ++ (Crank <$> crank) ++ (Settle <$> settle) ++ redeem).

(** Lines 58-100: the body of the [try] statement. *)
Definition pulse_body (self : MarketMaker') (context : Context) : M' unit :=
  payer ← external FromWallet (from_wallet (mango self) (wallet self));
  desired_orders ← chain_process (desired_orders_chain self) context;
  model_state ← get_model_state;
  if not_quoting model_state then ret tt
  else
    batch ← prepare self context (Payer <$> payer) desired_orders;
    external (fun _ => Execute batch) (execute (mango self) batch context);;
    timestamp ← external Now (now (mango self));
    emit (PulseComplete timestamp) (pulse_complete self) timestamp.

(** Lines 56-103: [pulse].  [except Exception as exception] hands the
    exception to [self.pulse_error.on_next]; the handler has no
    handler of its own, so what [on_next] raises leaves [pulse]. *)
Definition pulse (self : MarketMaker') (context : Context) : M' unit :=
  fun w =>
    match pulse_body self context w with
    | (Ok _, w') => (Ok tt, w')
    | (Raise exception, w') =>
        emit (PulseError exception) (pulse_error self) exception w'
    end.

(** *** Reading a trace *)

(** What a call contributes to the batch. *)
Definition contribution (ev : @Event exn Instruction) : Batch :=
  match ev with
  | FromWallet (Some built) => Payer <$> built
  | BuildCancelOrder o _ (Some built) => Cancel o <$> built
  | BuildPlaceOrder o (Some built) => Place o <$> built
  | BuildCrank (Some built) => Crank <$> built
  | BuildSettle (Some built) => Settle <$> built
  | BuildRedeem (Some built) => Redeem <$> built
  | _ => []
  end.

Definition batch_of (evs : list (@Event exn Instruction)) : Batch :=
  concat (contribution <$> evs).

(** The calls made before the batch is submitted. *)
Definition preparation (ev : @Event exn Instruction) : bool :=
  match ev with
  | Execute _ | Now _ | PulseComplete _ | PulseError _ => false
  | _ => true
  end.

(** The calls of the cancel loop when every call returns: one
    [build_cancel_order_instructions] per order. *)
Fixpoint cancel_events (orders : list Order) (builts : list (list Instruction))
    : list (@Event exn Instruction) :=
  match orders, builts with
  | to_cancel :: orders', built :: builts' =>
      BuildCancelOrder to_cancel true (Some built) :: cancel_events orders' builts'
  | _, _ => []
  end.

(** The calls of the place loop when every call returns: per order,
    the client id is generated, the order carrying it is tracked,
    and then its placement is requested. *)
Fixpoint place_events (orders : list Order) (outs : list (Z * list Instruction))
    : list (@Event exn Instruction) :=
  match orders, outs with
  | to_place :: orders', (desired_client_id, built) :: outs' =>
      RandomClientId (Some desired_client_id)
      :: Track (with_client_id to_place desired_client_id) (Some tt)
      :: BuildPlaceOrder (with_client_id to_place desired_client_id) (Some built)
      :: place_events orders' outs'
  | _, _ => []
  end.

(** The order in which [pulse] sums the parts of the batch. *)
Definition phase (op : @Operation Instruction) : nat :=
  match op with
  | Payer _ => 0
  | Cancel _ _ => 1
  | Place _ _ => 2
  | Crank _ => 3
  | Settle _ => 4
  | Redeem _ => 5
  end.

Definition is_pulse_error (ev : @Event exn Instruction) : bool :=
  match ev with PulseError _ => true | _ => false end.

Definition is_execute (ev : @Event exn Instruction) : bool :=
  match ev with Execute _ => true | _ => false end.

Definition is_build_redeem (ev : @Event exn Instruction) : bool :=
  match ev with BuildRedeem _ => true | _ => false end.


(** The calls between the consultation of the chain and the
    submission, when every one of them returns: the tracker is read,
    the orders are reconciled, the cancel loop and then the place loop
    run, crank and settle are built, and redeem is built when it is
    due. *)
Definition prepared (self : MarketMaker') (model_state' : ModelState)
    (desired : list Order) (tail : list (@Event exn Instruction)) : Prop :=
  exists existing reconciled builts outs crank settle redeem_events,
    length builts = length (to_cancel reconciled)
    /\ length outs = length (to_place reconciled)
    /\ tail = ExistingOrders (Some existing)
              :: Reconcile existing desired (Some reconciled)
              :: cancel_events (to_cancel reconciled) builts
              ++ place_events (to_place reconciled) outs
              ++ BuildCrank (Some crank) :: BuildSettle (Some settle) :: redeem_events
    /\ if redeem_due self model_state'
       then exists redeem, redeem_events = [BuildRedeem (Some redeem)]
       else redeem_events = [].

(** The orders [OrderTracker.track] returned for. *)
Definition tracked_orders (d : list (@Event exn Instruction)) : list Order :=
  omap (fun ev => match ev with Track o (Some _) => Some o | _ => None end) d.

(** The tracker after [track] has returned for each of [orders] in
    turn; [None] when one of the calls raises. *)
Fixpoint track_each (self : MarketMaker') (orders : list Order) (tracker : Tracker)
    : option Tracker :=
  match orders with
  | [] => Some tracker
  | o :: rest =>
      match track (order_tracker_ops self) o tracker with
      | (Ok _, tracker') => track_each self rest tracker'
      | (Raise _, _) => None
      end
  end.

(** What the calls [tail] did to the order tracker: [existing_orders]
    was called on [tracker], and [track] was then called, in the order
    of the trace, on the orders of the [Track] events, leaving
    [tracker']. *)
Definition tracking (self : MarketMaker') (model_state' : ModelState)
    (tracker tracker' : Tracker) (tail : list (@Event exn Instruction)) : Prop :=
  exists existing tracker1,
    existing_orders (order_tracker_ops self) model_state' tracker = (Ok existing, tracker1)
    /\ head tail = Some (ExistingOrders (Some existing))
    /\ track_each self (tracked_orders tail) tracker1 = Some tracker'.

(** The calls after the submission. *)
Definition completion (ev : @Event exn Instruction) : bool :=
  match ev with Now _ | PulseComplete _ => true | _ => false end.

(** The calls after the submission, [pulse_error.on_next] included. *)
Definition aftermath (ev : @Event exn Instruction) : bool :=
  match ev with Now _ | PulseComplete _ | PulseError _ => true | _ => false end.

(** A batch is ordered when an operation of an earlier phase stands
    before every operation of a later phase. *)
Definition ordered (b : Batch) : Prop :=
  forall i j x y, b !! i = Some x -> b !! j = Some y ->
                  (phase x < phase y)%nat -> (i < j)%nat.

(** Operations compared by phase. *)
Definition by_phase (x y : @Operation Instruction) : Prop :=
  (phase x <= phase y)%nat.

End Pulse.

(** *** Fixtures

    A market maker over concrete collaborators: the environment is a
    counter that feeds [random_client_id], exceptions are their
    messages, instructions are their names, and the order tracker is the
    one of the specification. *)
Definition fake_builder : @MarketInstructionBuilder nat string string :=
  mkMarketInstructionBuilder
    (fun _ _ env => (Ok ["cancel"], env))
    (fun _ env => (Ok ["place"], env))
    (fun _ env => (Ok ["crank"], env))
    (fun env => (Ok ["settle"], env))
    (fun env => (Ok ["redeem"], env)).

Definition fake_chain (desired : list Order) (suppress : bool) : @Chain nat string unit :=
  mkChain
    (fun _ model_state env =>
       (Ok desired,
        mkModelState (suppress || not_quoting model_state) (inventory model_state)
                     (current_orders model_state),
        env)).

(** Cancel every existing order and place every desired one. *)
Definition always_replace : @OrderReconciler nat string :=
  mkOrderReconciler (fun _ existing desired env => (Ok (mkReconciledOrders existing desired), env)).

Definition spec_tracker : @OrderTrackerOps string (gmap Z Order) :=
  mkOrderTrackerOps
    (fun model_state tracked =>
       let (orders, tracked') :=
         OrderTracker.existing_orders (current_orders model_state) tracked in
       (Ok orders, tracked'))
    (fun order tracked => (Ok tt, OrderTracker.track order tracked)).

Definition fake_mango (execute_ok : bool) : @Mango nat string unit unit string :=
  mkMango
    (fun _ env => (Ok ["payer"], env))
    (fun _ _ env => (if execute_ok then Ok tt else Raise "Transaction failed", env))
    (fun _ env => (Ok (Z.of_nat env), S env))
    (fun env => (Ok 1700000000%Z, env)).

(** An event source whose subscribers return, and one with a
    subscriber that raises. *)
Definition quiet {A} : @EventSource nat string A :=
  mkEventSource A (fun _ env => (Ok tt, env)).

Definition raising {A} : @EventSource nat string A :=
  mkEventSource A (fun _ env => (Raise "subscriber failed", env)).

Definition fake_market_maker (execute_ok suppress : bool) (threshold : option Decimal)
    (desired : list Order) : @MarketMaker nat string unit unit string (gmap Z Order) :=
  mkMarketMaker (fake_mango execute_ok) tt fake_builder (fake_chain desired suppress)
                always_replace threshold spec_tracker quiet quiet.

(** [self] with other subscribers. *)
Definition subscribed (self : @MarketMaker nat string unit unit string (gmap Z Order))
    (complete : @EventSource nat string Z) (error : @EventSource nat string string)
    : @MarketMaker nat string unit unit string (gmap Z Order) :=
  mkMarketMaker (mango self) (wallet self) (market_instruction_builder self)
                (desired_orders_chain self) (order_reconciler self)
                (redeem_threshold self) (order_tracker_ops self) complete error.

Definition fake_model_state (incentives : Decimal) (remote : list Order) : ModelState :=
  mkModelState false (mkInventory (mkTokenValue incentives)) remote.

Definition fake_world (incentives : Decimal) (remote : list Order)
    : @World nat string string (gmap Z Order) :=
  mkWorld 1000%nat ∅ (fake_model_state incentives remote) [].

Definition resting : Order := mkOrder (Some 17%Z) 900 BUY 10 100.
Definition wanted : Order := mkOrder None 0 BUY (102 # 10) 100.

(** Market makers that want [wanted] while [resting] rests on the
    book: one whose submission succeeds and that redeems above 5, one
    whose submission fails, one whose chain sets [not_quoting], one
    whose submission fails and whose [pulse_error] has a subscriber
    that raises, and one whose submission succeeds and whose
    [pulse_complete] has a subscriber that raises. *)
Definition quoting := fake_market_maker true false (Some 5%Q) [wanted].
Definition failing := fake_market_maker false false None [wanted].
Definition suppressed := fake_market_maker true true None [wanted].
Definition unheard := subscribed failing quiet raising.
Definition interrupted := subscribed quoting raising quiet.

Definition start := fake_world 7%Q [resting].

Definition placed : Order := with_client_id wanted 1000.

Definition calls_before_redeem : list (@Event string string) :=
  [FromWallet (Some ["payer"]); ChainProcess (Some [wanted]);
   ExistingOrders (Some [resting]);
   Reconcile [resting] [wanted] (Some (mkReconciledOrders [resting] [wanted]));
   BuildCancelOrder resting true (Some ["cancel"]);
   RandomClientId (Some 1000%Z); Track placed (Some tt);
   BuildPlaceOrder placed (Some ["place"]);
   BuildCrank (Some ["crank"]); BuildSettle (Some ["settle"])].

Definition calls_before : list (@Event string string) :=
  calls_before_redeem ++ [BuildRedeem (Some ["redeem"])].

Definition submitted_before_redeem : @CombinableInstructions string :=
  [Payer "payer"; Cancel resting "cancel"; Place placed "place";
   Crank "crank"; Settle "settle"].

Definition submitted : @CombinableInstructions string :=
  submitted_before_redeem ++ [Redeem "redeem"].

Definition calls_after : list (@Event string string) :=
  [Now (Some 1700000000%Z); PulseComplete 1700000000].

(** *** Properties of [pulse] *)

Section Properties.

Context {Env exn Wallet Context Instruction Tracker : Type}.

Local Abbreviation MarketMaker' :=
  (@MarketMaker Env exn Wallet Context Instruction Tracker).
Local Abbreviation World' := (@World Env exn Instruction Tracker).
Local Abbreviation Event' := (@Event exn Instruction).
Local Abbreviation Batch := (@CombinableInstructions Instruction).

Implicit Types (self : MarketMaker') (w : World') (d pre post : list Event')
  (b : Batch) (context : Context).

Lemma split_at_unique {A} (P : A -> bool) (l1' l2' l1 l2 : list A) (x y : A) :
  Forall (fun a => P a = false) l1' -> Forall (fun a => P a = false) l2' ->
  P x = true -> P y = true ->
  l1 ++ x :: l2 = l1' ++ y :: l2' ->
  l1 = l1' /\ x = y /\ l2 = l2'.
Proof.
  intros H1 H2 Hx Hy. revert l1.
  induction H1 as [|a l1' Ha H1 IH]; intros [|c l1] Heq; cbn in Heq.
  - by injection Heq as -> ->.
  - injection Heq as -> Heq. exfalso.
    rewrite List.Forall_forall in H2.
    assert (Hin : List.In x l2') by (rewrite <- Heq; apply in_elt).
    specialize (H2 x Hin). congruence.
  - injection Heq as -> Heq. congruence.
  - injection Heq as -> Heq. destruct (IH l1 Heq) as (-> & -> & ->). done.
Qed.

Lemma batch_of_app d1 d2 : batch_of (d1 ++ d2) = batch_of d1 ++ batch_of d2.
Proof. unfold batch_of. by rewrite fmap_app, concat_app. Qed.

Lemma batch_of_cons (ev : Event') d : batch_of (ev :: d) = contribution ev ++ batch_of d.
Proof. reflexivity. Qed.

Lemma cancel_events_Forall (P : Event' -> Prop) orders builts :
  (forall o built, P (BuildCancelOrder o true (Some built))) ->
  Forall P (cancel_events orders builts).
Proof.
  intros HP. revert builts.
  induction orders as [|o orders IH]; intros [|built builts]; cbn; auto.
Qed.

Lemma place_events_Forall (P : Event' -> Prop) orders outs :
  (forall cid, P (RandomClientId (Some cid))) ->
  (forall o, P (Track o (Some tt))) ->
  (forall o built, P (BuildPlaceOrder o (Some built))) ->
  Forall P (place_events orders outs).
Proof.
  intros H1 H2 H3. revert outs.
  induction orders as [|o orders IH]; intros [|[cid built] outs]; cbn; auto.
Qed.

Ltac unfold_monad :=
  unfold mbind, M_bind, mret, M_ret, bind, ret, emit, external, tracker_call,
    chain_process, get_model_state in *.

Lemma tracked_orders_app d1 d2 :
  tracked_orders (d1 ++ d2) = tracked_orders d1 ++ tracked_orders d2.
Proof. apply omap_app. Qed.

Lemma tracked_orders_cancel_events orders builts :
  tracked_orders (@cancel_events exn Instruction orders builts) = [].
Proof.
  revert builts. induction orders as [|o orders IH]; intros [|built builts]; try done.
  cbn. apply IH.
Qed.

(** The cancel loop: it leaves the tracker and the model state alone,
    makes only preparation calls, and when it returns it has made one
    call per order and appended what they built. *)
Lemma build_cancellations_spec self orders :
  forall (acc : Batch) w r w',
    build_cancellations self orders acc w = (r, w') ->
    order_tracker w' = order_tracker w
    /\ model_state w' = model_state w
    /\ exists d, trace w' = trace w ++ d
         /\ Forall (fun ev => preparation ev = true) d
         /\ match r with
            | Ok cancellations =>
                exists builts, length builts = length orders
                               /\ d = cancel_events orders builts
                               /\ cancellations = acc ++ batch_of d
            | Raise _ => True
            end.
Proof.
  induction orders as [|o orders IH]; intros acc w r w' Hrun.
  - cbn in Hrun. unfold_monad. injection Hrun as <- <-.
    repeat split. exists []. rewrite !app_nil_r. repeat split; [constructor|].
    by exists [].
  - cbn [build_cancellations] in Hrun. unfold_monad.
    destruct (build_cancel_order_instructions _ o true (env w))
      as [[built|e] env1] eqn:Hbuild; cbn in Hrun.
    + apply IH in Hrun as (Htracker & Hstate & d & Htrace & Hprep & Hres).
      cbn in Htracker, Hstate, Htrace. repeat split; [done..|].
      exists (BuildCancelOrder o true (Some built) :: d).
      rewrite Htrace, <- app_assoc. repeat split; [by constructor|].
      destruct r as [cancellations|e]; [|done].
      destruct Hres as (builts & Hlen & -> & ->).
      exists (built :: builts). cbn [length cancel_events].
      rewrite batch_of_cons, <- app_assoc. cbn [contribution]. by rewrite Hlen.
    + injection Hrun as <- <-. cbn. repeat split.
      exists [BuildCancelOrder o true None]. repeat split. by repeat constructor.
Qed.

(** The place loop: it leaves the model state alone, makes only
    preparation calls, and when it returns it has, per order,
    generated a client id, tracked the order carrying it and only then
    requested its placement. *)
Lemma build_place_orders_spec self context orders :
  forall (acc : Batch) w r w',
    build_place_orders self context orders acc w = (r, w') ->
    model_state w' = model_state w
    /\ exists d, trace w' = trace w ++ d
         /\ Forall (fun ev => preparation ev = true) d
         /\ match r with
            | Ok place_orders =>
                exists outs, length outs = length orders
                             /\ d = place_events orders outs
                             /\ place_orders = acc ++ batch_of d
                             /\ track_each self (tracked_orders d) (order_tracker w)
                                = Some (order_tracker w')
            | Raise _ => True
            end.
Proof.
  induction orders as [|o orders IH]; intros acc w r w' Hrun.
  - cbn in Hrun. unfold_monad. injection Hrun as <- <-.
    repeat split. exists []. rewrite !app_nil_r. repeat split; [constructor|].
    by exists [].
  - cbn [build_place_orders] in Hrun. unfold_monad.
    destruct (random_client_id _ context (env w)) as [[cid|e] env1] eqn:Hid;
      cbn in Hrun;
      [|injection Hrun as <- <-; cbn; split; [done|];
        exists [RandomClientId None]; by repeat constructor].
    destruct (track _ (with_client_id o cid) (order_tracker w))
      as [[[]|e] tracker1] eqn:Htrack; cbn in Hrun;
      [|injection Hrun as <- <-; cbn; split; [done|];
        exists [RandomClientId (Some cid); Track (with_client_id o cid) None];
        rewrite <- app_assoc; by repeat constructor].
    destruct (build_place_order_instructions _ (with_client_id o cid) env1)
      as [[built|e] env2] eqn:Hbuild; cbn in Hrun;
      [|injection Hrun as <- <-; cbn; split; [done|];
        exists [RandomClientId (Some cid); Track (with_client_id o cid) (Some tt);
                BuildPlaceOrder (with_client_id o cid) None];
        rewrite <- !app_assoc; by repeat constructor].
    apply IH in Hrun as (Hstate & d & Htrace & Hprep & Hres).
    cbn in Hstate, Htrace. split; [done|].
    exists (RandomClientId (Some cid) :: Track (with_client_id o cid) (Some tt)
            :: BuildPlaceOrder (with_client_id o cid) (Some built) :: d).
    rewrite Htrace, <- !app_assoc. repeat split; [by repeat constructor|].
    destruct r as [place_orders|e]; [|done].
    destruct Hres as (outs & Hlen & -> & -> & Htracked).
    exists ((cid, built) :: outs). cbn [length place_events].
    rewrite !batch_of_cons, <- app_assoc. cbn [contribution app]. rewrite Hlen.
    repeat split. cbn in Htracked |- *. by rewrite Htrack.
Qed.

Ltac solve_preparation :=
  repeat first
    [ assumption
    | apply Forall_nil_2
    | apply Forall_cons_2; [reflexivity|]
    | apply Forall_app_2 ].

Ltac failed_early Hrun :=
  injection Hrun as <- <-; cbn [model_state trace];
  split; [congruence|];
  eexists; split;
  [ repeat match goal with H : trace _ = _ |- _ => rewrite H; clear H end;
    cbn [trace]; rewrite <- ?app_assoc; reflexivity
  | split; [solve_preparation | exact I] ].

(** Lines 72-96: [prepare] leaves the model state alone and makes only
    preparation calls; when it returns, the calls are the ones of
    [prepared] and the batch is the payer's part followed by what the
    calls built, in the order of the calls. *)
Lemma prepare_spec self context (payer : Batch) desired w r w' :
  prepare self context payer desired w = (r, w') ->
  model_state w' = model_state w
  /\ exists d, trace w' = trace w ++ d
       /\ Forall (fun ev => preparation ev = true) d
       /\ match r with
          | Ok batch => prepared self (model_state w) desired d
                        /\ batch = payer ++ batch_of d
                        /\ tracking self (model_state w) (order_tracker w)
                             (order_tracker w') d
          | Raise _ => True
          end.
Proof.
  unfold prepare. unfold_monad. cbn. intros Hrun.
  destruct (existing_orders _ (model_state w) (order_tracker w))
    as [[existing|e] tracker1] eqn:Hexisting; cbn in Hrun; [|failed_early Hrun].
  destruct (reconcile _ (model_state w) existing desired (env w))
    as [[reconciled|e] env1] eqn:Hreconcile; cbn in Hrun; [|failed_early Hrun].
  destruct (build_cancellations self (to_cancel reconciled) [] _)
    as [[cancellations|e] w2] eqn:Hcancel;
    apply build_cancellations_spec in Hcancel
      as (Htracker2 & Hstate2 & d2 & Htrace2 & Hprep2 & Hres2);
    cbn in Htracker2, Hstate2, Htrace2; [|failed_early Hrun].
  destruct Hres2 as (builts & Hbuilts & -> & ->).
  destruct (build_place_orders self context (to_place reconciled) [] w2)
    as [[place_orders|e] w3] eqn:Hplace;
    apply build_place_orders_spec in Hplace
      as (Hstate3 & d3 & Htrace3 & Hprep3 & Hres3); [|failed_early Hrun].
  destruct Hres3 as (outs & Houts & -> & -> & Htracked3).
  assert (Htracked : forall rest : list Event',
             tracked_orders rest = [] ->
             track_each self
               (tracked_orders
                  (ExistingOrders (Some existing)
                   :: Reconcile existing desired (Some reconciled)
                   :: cancel_events (to_cancel reconciled) builts
                   ++ place_events (to_place reconciled) outs ++ rest))
               tracker1
             = Some (order_tracker w3)).
  { intros rest Hrest. cbn [tracked_orders omap list_omap].
    fold (tracked_orders
            (cancel_events (to_cancel reconciled) builts
             ++ place_events (to_place reconciled) outs ++ rest)).
    rewrite !tracked_orders_app, tracked_orders_cancel_events, Hrest, app_nil_r.
    cbn [app]. by rewrite <- Htracker2. }
  destruct (build_crank_instructions _ [] (env w3)) as [[crank|e] env4] eqn:Hcrank;
    cbn in Hrun; [|failed_early Hrun].
  destruct (build_settle_instructions _ env4) as [[settle|e] env5] eqn:Hsettle;
    cbn in Hrun; [|failed_early Hrun].
  assert (Hdue : redeem_due self (model_state w3) = redeem_due self (model_state w))
    by congruence.
  destruct (redeem_due self (model_state w3)) eqn:Hdue3; cbn in Hrun.
  - destruct (build_redeem_instructions _ env5) as [[redeem|e] env6] eqn:Hredeem;
      cbn in Hrun; [|failed_early Hrun].
    injection Hrun as <- <-. cbn [model_state trace order_tracker].
    split; [congruence|].
    eexists. split; [|split; [|split; [|split]]].
    + rewrite Htrace3, Htrace2. rewrite <- !app_assoc. reflexivity.
    + solve_preparation.
    + exists existing, reconciled, builts, outs, crank, settle,
        [BuildRedeem (Some redeem)].
      rewrite <- Hdue. repeat split; [done..|]. by exists redeem.
    + rewrite !batch_of_app. cbn.
      by rewrite ?app_nil_r.
    + exists existing, tracker1. split; [done|]. split; [done|].
      by apply (Htracked [BuildCrank (Some crank); BuildSettle (Some settle);
                          BuildRedeem (Some redeem)]).
  - injection Hrun as <- <-. cbn [model_state trace order_tracker].
    split; [congruence|].
    eexists. split; [|split; [|split; [|split]]].
    + rewrite Htrace3, Htrace2. rewrite <- !app_assoc. reflexivity.
    + solve_preparation.
    + exists existing, reconciled, builts, outs, crank, settle, [].
      rewrite <- Hdue. by repeat split.
    + rewrite !batch_of_app. cbn.
      by rewrite ?app_nil_r.
    + exists existing, tracker1. split; [done|]. split; [done|].
      by apply (Htracked [BuildCrank (Some crank); BuildSettle (Some settle)]).
Qed.

(** Lines 58-100.  Either the body stops before the submission,
    having made only preparation calls (a call raised, or
    [not_quoting] was set), or it reaches the submission: the calls
    before it are the ones of [prepared], the batch submitted is
    what they built, and only [now] and [pulse_complete.on_next]
    follow. *)
Lemma pulse_body_spec self context w r w' :
  pulse_body self context w = (r, w') ->
  exists d, trace w' = trace w ++ d
    /\ (Forall (fun ev => preparation ev = true) d
        \/ exists payer desired tail post,
             let pre := FromWallet (Some payer) :: ChainProcess (Some desired) :: tail in
             d = pre ++ Execute (batch_of pre) :: post
             /\ Forall (fun ev => preparation ev = true) pre
             /\ prepared self (model_state w') desired tail
             /\ Forall (fun ev => completion ev = true) post
             /\ tracking self (model_state w') (order_tracker w) (order_tracker w') tail).
Proof.
  unfold pulse_body. unfold_monad. cbn. intros Hrun.
  destruct (from_wallet _ (wallet self) (env w)) as [[payer|e] env1] eqn:Hpayer;
    cbn in Hrun;
    [|injection Hrun as <- <-; eexists; split; [reflexivity|];
      left; by repeat constructor].
  destruct (process _ context (model_state w) env1)
    as [[[desired|e] model_state'] env2] eqn:Hprocess; cbn in Hrun;
    [|injection Hrun as <- <-; cbn; eexists;
      split; [rewrite <- app_assoc; reflexivity|]; left; by repeat constructor].
  destruct (not_quoting model_state') eqn:Hquoting;
    [injection Hrun as <- <-; cbn; eexists;
      split; [rewrite <- app_assoc; reflexivity|]; left; by repeat constructor|].
  destruct (prepare self context (Payer <$> payer) desired _)
    as [[batch|e] w3] eqn:Hprepare;
    apply prepare_spec in Hprepare as (Hstate3 & d3 & Htrace3 & Hprep3 & Hres3);
    cbn in Hstate3, Htrace3;
    [|injection Hrun as <- <-; eexists;
      split; [rewrite Htrace3, <- !app_assoc; reflexivity|];
      left; solve_preparation].
  destruct Hres3 as (Hprepared & -> & Htracking). cbn in Hprepared, Htracking.
  assert (Hbatch : (Payer <$> payer) ++ batch_of d3
                   = batch_of (FromWallet (Some payer) :: ChainProcess (Some desired) :: d3))
    by reflexivity.
  rewrite Hbatch in Hrun. clear Hbatch.
  assert (Hreached : forall (env' : Env) (post : list Event'),
             Forall (fun ev => completion ev = true) post ->
             exists d,
               trace (mkWorld env' (order_tracker w3) (model_state w3)
                              (((trace w ++ [FromWallet (Some payer)])
                                ++ [ChainProcess (Some desired)]) ++ d3
                               ++ Execute (batch_of (FromWallet (Some payer)
                                                     :: ChainProcess (Some desired) :: d3))
                               :: post))
               = trace w ++ d
               /\ (Forall (fun ev => preparation ev = true) d
                   \/ exists payer0 desired0 tail post0,
                        let pre := FromWallet (Some payer0)
                                   :: ChainProcess (Some desired0) :: tail in
                        d = pre ++ Execute (batch_of pre) :: post0
                        /\ Forall (fun ev => preparation ev = true) pre
                        /\ prepared self (model_state w3) desired0 tail
                        /\ Forall (fun ev => completion ev = true) post0
                        /\ tracking self (model_state w3) (order_tracker w)
                             (order_tracker w3) tail)).
  { intros env' post Hpost. eexists. split.
    - cbn [trace]. rewrite <- !app_assoc. cbn [app]. reflexivity.
    - right. exists payer, desired, d3, post. cbv zeta.
      split; [reflexivity|]. rewrite Hstate3.
      split; [solve_preparation|]. by repeat split. }
  destruct (execute _ _ context (env w3)) as [[[]|e] env4] eqn:Hexecute; cbn in Hrun.
  - destruct (now _ env4) as [[timestamp|e] env5] eqn:Hnow; cbn in Hrun.
    + destruct (on_next _ timestamp env5) as [r6 env6] eqn:Hnext.
      injection Hrun as <- <-. cbn [order_tracker model_state].
      destruct (Hreached env6 [Now (Some timestamp); PulseComplete timestamp])
        as (d & Htrace & Hcases); [by repeat constructor|].
      exists d. split; [|done]. rewrite <- Htrace. cbn [trace].
      rewrite Htrace3, <- !app_assoc. reflexivity.
    + injection Hrun as <- <-. cbn [order_tracker model_state].
      destruct (Hreached env5 [Now None]) as (d & Htrace & Hcases);
        [by repeat constructor|].
      exists d. split; [|done]. rewrite <- Htrace. cbn [trace].
      rewrite Htrace3, <- !app_assoc. reflexivity.
  - injection Hrun as <- <-. cbn [order_tracker model_state].
    destruct (Hreached env4 []) as (d & Htrace & Hcases); [constructor|].
    exists d. split; [|done]. rewrite <- Htrace. cbn [trace].
    rewrite Htrace3, <- !app_assoc. reflexivity.
Qed.

(** [pulse] runs its body; when the body raised, the exception goes
    to [pulse_error.on_next], which is the last call, and [pulse]
    returns what that call returns. *)
Lemma pulse_unfold self context w :
  exists rb wb,
    pulse_body self context w = (rb, wb)
    /\ match rb with
       | Ok _ => pulse self context w = (Ok tt, wb)
       | Raise exception =>
           exists r env',
             on_next (pulse_error self) exception (env wb) = (r, env')
             /\ pulse self context w
                = (r, mkWorld env' (order_tracker wb) (model_state wb)
                              (trace wb ++ [PulseError exception]))
       end.
Proof.
  unfold pulse. destruct (pulse_body self context w) as [[[]|e] wb].
  - by exists (Ok tt), wb.
  - exists (Raise e), wb. split; [done|]. unfold_monad.
    destruct (on_next (pulse_error self) e (env wb)) as [r env'].
    by exists r, env'.
Qed.

(** What [pulse] adds to its body: nothing but the call of
    [pulse_error.on_next]. *)
Lemma pulse_trace self context w r w' :
  pulse self context w = (r, w') ->
  exists rb wb,
    pulse_body self context w = (rb, wb)
    /\ order_tracker w' = order_tracker wb
    /\ model_state w' = model_state wb
    /\ trace w' = trace wb ++ match rb with
                              | Ok _ => []
                              | Raise exception => [PulseError exception]
                              end.
Proof.
  intros Hpulse.
  destruct (pulse_unfold self context w) as (rb & wb & Hbody & Hcases).
  exists rb, wb. split; [done|]. destruct rb as [[]|exception].
  - rewrite Hcases in Hpulse. injection Hpulse as <- <-. by rewrite app_nil_r.
  - destruct Hcases as (r0 & env' & _ & Hpulse'). rewrite Hpulse' in Hpulse.
    by injection Hpulse as <- <-.
Qed.

Lemma preparation_not_execute d :
  Forall (fun ev => preparation ev = true) d ->
  Forall (fun ev => is_execute ev = false) d.
Proof. intros H. eapply Forall_impl; [exact H|]. by intros []. Qed.

Lemma preparation_not_pulse_error d :
  Forall (fun ev => preparation ev = true) d ->
  Forall (fun ev => is_pulse_error ev = false) d.
Proof. intros H. eapply Forall_impl; [exact H|]. by intros []. Qed.

(** A pulse that reaches the submission: whatever way the trace is
    split at a call of [execute], the calls before it are the ones of
    [prepared], the batch is what they built, and nothing but [now]
    and the two event sources follows. *)
Lemma pulse_submission self context w r w' d pre b post :
  pulse self context w = (r, w') ->
  trace w' = trace w ++ d ->
  d = pre ++ Execute b :: post ->
  exists payer desired tail,
    pre = FromWallet (Some payer) :: ChainProcess (Some desired) :: tail
    /\ Forall (fun ev => preparation ev = true) pre
    /\ prepared self (model_state w') desired tail
    /\ b = batch_of pre
    /\ Forall (fun ev => aftermath ev = true) post
    /\ tracking self (model_state w') (order_tracker w) (order_tracker w') tail.
Proof.
  intros Hpulse Htrace Hd.
  destruct (pulse_trace _ _ _ _ _ Hpulse) as (rb & wb & Hbody & Htracker & Hstate & Hpulse').
  rewrite Hpulse' in Htrace. rewrite Htracker, Hstate. clear Hpulse Hpulse' Htracker Hstate.
  apply pulse_body_spec in Hbody as (db & Htraceb & Hcases).
  rewrite Htraceb, <- app_assoc in Htrace. apply app_inv_head in Htrace.
  subst d. rename Hd into Htrace.
  set (extra := match rb with Ok _ => [] | Raise exception => [PulseError exception] end)
    in *.
  assert (Hextra : Forall (fun ev : Event' => aftermath ev = true) extra)
    by (subst extra; destruct rb; by repeat constructor).
  assert (Hafter : forall l : list Event',
             Forall (fun ev => aftermath ev = true) l ->
             Forall (fun ev => is_execute ev = false) l)
    by (intros l H; eapply Forall_impl; [exact H|]; by intros []).
  destruct Hcases as [Hprep | (payer & desired & tail & post0 & Hshape)].
  - exfalso.
    assert (Hall : Forall (fun ev : Event' => is_execute ev = false) (db ++ extra))
      by (apply Forall_app_2; [by apply preparation_not_execute | by apply Hafter]).
    rewrite Htrace in Hall. apply Forall_app in Hall as [_ Hall].
    apply Forall_cons in Hall as [Hall _]. discriminate.
  - cbv zeta in Hshape. destruct Hshape as (-> & Hpre & Hprepared & Hpost & Htracking).
    rewrite <- app_assoc in Htrace.
    change ((Execute ?x :: post0) ++ extra) with (Execute x :: (post0 ++ extra)) in Htrace.
    assert (Hpost' : Forall (fun ev : Event' => aftermath ev = true) (post0 ++ extra)).
    { apply Forall_app_2; [|done]. eapply Forall_impl; [exact Hpost|]. by intros []. }
    symmetry in Htrace.
    apply (split_at_unique is_execute) in Htrace as (-> & [= ->] & ->);
      [|by apply preparation_not_execute|by apply Hafter|done..].
    exists payer, desired, tail. by repeat split.
Qed.

(** C2.  When the chain has been consulted and [not_quoting] is set
    on the model state it leaves, [pulse] returns having called
    nothing but [from_wallet] and the chain: no cancellation and no
    placement is requested, nothing is submitted, the order tracker
    is as it was, and neither [pulse_complete] nor [pulse_error]
    receives an event. *)
Theorem pulse_not_quoting self context w
    (payer : list Instruction) (env1 : Env)
    (desired : list Order) (model_state' : ModelState) (env2 : Env) :
  from_wallet (mango self) (wallet self) (env w) = (Ok payer, env1) ->
  process (desired_orders_chain self) context (model_state w) env1
    = (Ok desired, model_state', env2) ->
  not_quoting model_state' = true ->
  pulse self context w
  = (Ok tt,
     mkWorld env2 (order_tracker w) model_state'
             (trace w ++ [FromWallet (Some payer); ChainProcess (Some desired)])).
Proof.
  intros Hpayer Hprocess Hquoting.
  unfold pulse, pulse_body. unfold_monad. cbn.
  rewrite Hpayer. cbn. rewrite Hprocess. cbn. rewrite Hquoting.
  by rewrite <- app_assoc.
Qed.

(** C1, as amended.  When a step of the body of [pulse] raises, the
    exception is caught and goes to [pulse_error.on_next], which is the
    only [pulse_error] event of the pulse and its last call; the order
    tracker and the model state are the ones the failing step left
    behind.  The handler is not guarded: [pulse] returns when
    [on_next] returns, and raises what [on_next] raises when a
    subscriber of [pulse_error] raises. *)
Theorem pulse_catches self context w (exception : exn) (wb : World')
    (r : result exn unit) (env' : Env) :
  pulse_body self context w = (Raise exception, wb) ->
  on_next (pulse_error self) exception (env wb) = (r, env') ->
  pulse self context w
  = (r,
     mkWorld env' (order_tracker wb) (model_state wb)
             (trace wb ++ [PulseError exception]))
  /\ exists d, trace wb = trace w ++ d
               /\ Forall (fun ev => is_pulse_error ev = false) d.
Proof.
  intros Hbody Hnext. split.
  - unfold pulse. rewrite Hbody. unfold_monad. by rewrite Hnext.
  - apply pulse_body_spec in Hbody as (d & Htrace & Hcases).
    exists d. split; [done|].
    destruct Hcases as [Hprep | (payer & desired & tail & post & Hshape)].
    + by apply preparation_not_pulse_error.
    + cbv zeta in Hshape. destruct Hshape as (-> & Hpre & _ & Hpost & _).
      apply Forall_app_2; [by apply preparation_not_pulse_error|].
      apply Forall_cons_2; [done|].
      eapply Forall_impl; [exact Hpost|]. by intros [].
Qed.

(** *** The order of the batch *)

Lemma uniform_sorted (k : nat) b :
  Forall (fun op => phase op = k) b -> StronglySorted by_phase b.
Proof.
  induction 1 as [|op b Hop Hb IH]; constructor; [done|].
  eapply Forall_impl; [exact Hb|]. intros op' Hop'. unfold by_phase.
  cbn in Hop, Hop'. lia.
Qed.

Lemma sorted_app_bound (k : nat) b1 b2 :
  StronglySorted by_phase b1 -> StronglySorted by_phase b2 ->
  Forall (fun op => (phase op <= k)%nat) b1 ->
  Forall (fun op => (k <= phase op)%nat) b2 ->
  StronglySorted by_phase (b1 ++ b2).
Proof.
  intros H1 H2 Hlow Hhigh. apply StronglySorted_app. repeat split; [|done..].
  intros x1 x2 Hx1 Hx2.
  rewrite Forall_forall in Hlow. rewrite Forall_forall in Hhigh.
  specialize (Hlow x1 Hx1). specialize (Hhigh x2 Hx2). unfold by_phase. lia.
Qed.

Lemma sorted_ordered b : StronglySorted by_phase b -> ordered b.
Proof.
  induction 1 as [|op b Hb IH Hop]; intros i j x y Hi Hj Hlt.
  - by destruct i.
  - destruct i as [|i], j as [|j]; cbn in Hi, Hj.
    + injection Hi as ->. injection Hj as ->. lia.
    + lia.
    + injection Hj as ->. exfalso.
      rewrite Forall_forall in Hop.
      assert (Hle : by_phase y x) by (apply Hop; eapply list_elem_of_lookup_2, Hi).
      unfold by_phase in Hle. lia.
    + apply -> Nat.succ_lt_mono. eauto.
Qed.

Lemma batch_of_cancel_events orders builts :
  Forall (fun op => phase op = 1%nat)
         (batch_of (@cancel_events exn Instruction orders builts)).
Proof.
  revert builts.
  induction orders as [|o orders IH]; intros [|built builts]; cbn [cancel_events];
    try apply Forall_nil_2.
  rewrite batch_of_cons. apply Forall_app_2; [|apply IH].
  cbn. by apply Forall_fmap, Forall_true.
Qed.

Lemma batch_of_place_events orders outs :
  Forall (fun op => phase op = 2%nat)
         (batch_of (@place_events exn Instruction orders outs)).
Proof.
  revert outs.
  induction orders as [|o orders IH]; intros [|[cid built] outs]; cbn [place_events];
    try apply Forall_nil_2.
  rewrite !batch_of_cons. cbn [contribution app].
  apply Forall_app_2; [|apply IH].
  by apply Forall_fmap, Forall_true.
Qed.

Lemma batch_of_prepared (payer : list Instruction) desired existing reconciled
    builts outs (crank settle : list Instruction) (redeem_events : list Event') :
  batch_of (FromWallet (Some payer) :: ChainProcess (Some desired)
            :: ExistingOrders (Some existing)
            :: Reconcile existing desired (Some reconciled)
            :: cancel_events (to_cancel reconciled) builts
            ++ place_events (to_place reconciled) outs
            ++ BuildCrank (Some crank) :: BuildSettle (Some settle) :: redeem_events)
  = (Payer <$> payer)
    ++ batch_of (@cancel_events exn Instruction (to_cancel reconciled) builts)
    ++ batch_of (@place_events exn Instruction (to_place reconciled) outs)
    ++ (Crank <$> crank) ++ (Settle <$> settle) ++ batch_of redeem_events.
Proof.
  rewrite !batch_of_cons, !batch_of_app, !batch_of_cons. reflexivity.
Qed.

Lemma prepared_ordered self model_state' (payer : list Instruction) desired tail :
  prepared self model_state' desired tail ->
  ordered (batch_of (FromWallet (Some payer) :: ChainProcess (Some desired) :: tail)).
Proof.
  intros (existing & reconciled & builts & outs & crank & settle & redeem_events
          & _ & _ & -> & Hredeem).
  rewrite batch_of_prepared. apply sorted_ordered.
  assert (H0 : Forall (fun op : @Operation Instruction => phase op = 0%nat)
                 (Payer <$> payer)) by by apply Forall_fmap, Forall_true.
  pose proof (batch_of_cancel_events (to_cancel reconciled) builts) as H1.
  pose proof (batch_of_place_events (to_place reconciled) outs) as H2.
  assert (H3 : Forall (fun op : @Operation Instruction => phase op = 3%nat)
                 (Crank <$> crank)) by by apply Forall_fmap, Forall_true.
  assert (H4 : Forall (fun op : @Operation Instruction => phase op = 4%nat)
                 (Settle <$> settle)) by by apply Forall_fmap, Forall_true.
  assert (H5 : Forall (fun op : @Operation Instruction => phase op = 5%nat)
                 (batch_of redeem_events)).
  { destruct (redeem_due self model_state').
    - destruct Hredeem as [redeem ->]. cbn. rewrite app_nil_r.
      by apply Forall_fmap, Forall_true.
    - subst redeem_events. constructor. }
  assert (Hge : forall (k n : nat) (b' : Batch),
             (k <= n)%nat -> Forall (fun op => phase op = n) b' ->
             Forall (fun op => (k <= phase op)%nat) b')
    by (intros k n b' Hkn H; eapply Forall_impl; [exact H|]; cbn; lia).
  assert (Hle : forall (k : nat) (b' : Batch),
             Forall (fun op => phase op = k) b' ->
             Forall (fun op => (phase op <= k)%nat) b')
    by (intros k b' H; eapply Forall_impl; [exact H|]; cbn; lia).
  apply (sorted_app_bound 0); [by eapply uniform_sorted| |by apply Hle|].
  2: { repeat apply Forall_app_2; eapply Hge; try eassumption; lia. }
  apply (sorted_app_bound 1); [by eapply uniform_sorted| |by apply Hle|].
  2: { repeat apply Forall_app_2; eapply Hge; try eassumption; lia. }
  apply (sorted_app_bound 2); [by eapply uniform_sorted| |by apply Hle|].
  2: { repeat apply Forall_app_2; eapply Hge; try eassumption; lia. }
  apply (sorted_app_bound 3); [by eapply uniform_sorted| |by apply Hle|].
  2: { repeat apply Forall_app_2; eapply Hge; try eassumption; lia. }
  apply (sorted_app_bound 4); [by eapply uniform_sorted|by eapply uniform_sorted
                               |by apply Hle|].
  eapply Hge; [|eassumption]. lia.
Qed.

(** C5.  In a pulse that reaches the submission there is one call of
    [execute]; the batch it is given is everything the calls before
    it built (payer, cancels, places, crank, settle and, when due,
    redeem) in the order of [pulse]'s sum; and every cancellation
    instruction of the batch stands before every placement
    instruction. *)
Theorem pulse_single_submission self context w r w' d pre b post :
  pulse self context w = (r, w') ->
  trace w' = trace w ++ d ->
  d = pre ++ Execute b :: post ->
  Forall (fun ev => is_execute ev = false) pre
  /\ Forall (fun ev => is_execute ev = false) post
  /\ Forall (fun ev => contribution ev = []) post
  /\ b = batch_of pre
  /\ ordered b
  /\ forall i j o1 i1 o2 i2,
       b !! i = Some (Cancel o1 i1) -> b !! j = Some (Place o2 i2) -> (i < j)%nat.
Proof.
  intros Hpulse Htrace Hd.
  destruct (pulse_submission _ _ _ _ _ _ _ _ _ Hpulse Htrace Hd)
    as (payer & desired & tail & -> & Hpre & Hprepared & -> & Hpost & Htracking).
  pose proof (prepared_ordered _ _ payer _ _ Hprepared) as Hordered.
  repeat split.
  - by apply preparation_not_execute.
  - eapply Forall_impl; [exact Hpost|]. by intros [].
  - eapply Forall_impl; [exact Hpost|]. by intros [].
  - done.
  - intros i j o1 i1 o2 i2 Hi Hj. eapply Hordered; [exact Hi|exact Hj|]. cbn. lia.
Qed.

(** *** The place loop in the trace *)



(** *** The order tracker at the submission *)





(** C7.  In a pulse that reaches the submission,
    [build_redeem_instructions] is called exactly when a redeem
    threshold is configured and the value of the liquidity incentives
    in the model state is strictly greater than it; the batch is then
    the batch of the other calls followed by the redeem instructions,
    and it is the batch of the other calls alone otherwise. *)
Theorem pulse_redeem_iff self context w r w' d pre b post :
  pulse self context w = (r, w') ->
  trace w' = trace w ++ d ->
  d = pre ++ Execute b :: post ->
  ((exists built, BuildRedeem built ∈ d)
   <-> exists threshold,
         redeem_threshold self = Some threshold
         /\ (threshold < value (liquidity_incentives (inventory (model_state w'))))%Q)
  /\ exists pre0 redeem_events,
       pre = pre0 ++ redeem_events
       /\ Forall (fun ev => is_build_redeem ev = false) pre0
       /\ (redeem_events = []
           \/ exists redeem, redeem_events = [BuildRedeem (Some redeem)])
       /\ b = batch_of pre0 ++ batch_of redeem_events.
Proof.
  intros Hpulse Htrace Hd.
  destruct (pulse_submission _ _ _ _ _ _ _ _ _ Hpulse Htrace Hd)
    as (payer & desired & tail & -> & Hpre & Hprepared & -> & Hpost & Htracking).
  destruct Hprepared as (existing & reconciled & builts & outs & crank & settle
                         & redeem_events & Hbuilts & Houts & -> & Hredeem).
  set (pre0 := @FromWallet exn Instruction (Some payer) :: ChainProcess (Some desired)
               :: ExistingOrders (Some existing)
               :: Reconcile existing desired (Some reconciled)
               :: cancel_events (to_cancel reconciled) builts
               ++ place_events (to_place reconciled) outs
               ++ [BuildCrank (Some crank); BuildSettle (Some settle)]).
  assert (Hsplit : @FromWallet exn Instruction (Some payer) :: ChainProcess (Some desired)
                   :: ExistingOrders (Some existing)
                   :: Reconcile existing desired (Some reconciled)
                   :: cancel_events (to_cancel reconciled) builts
                   ++ place_events (to_place reconciled) outs
                   ++ BuildCrank (Some crank) :: BuildSettle (Some settle)
                   :: redeem_events
                   = pre0 ++ redeem_events)
    by (subst pre0; cbn [app]; by rewrite <- !app_assoc).
  rewrite Hsplit in *. clear Hsplit.
  assert (Hpre0 : Forall (fun ev : Event' => is_build_redeem ev = false) pre0).
  { subst pre0. repeat apply Forall_cons_2; try done.
    apply Forall_app_2; [by apply cancel_events_Forall|].
    apply Forall_app_2; [by apply place_events_Forall|]. by repeat constructor. }
  assert (Hpost0 : Forall (fun ev : Event' => is_build_redeem ev = false) post)
    by (eapply Forall_impl; [exact Hpost|]; by intros []).
  assert (Hdue : redeem_due self (model_state w') = true
                 <-> exists threshold,
                       redeem_threshold self = Some threshold
                       /\ (threshold
                            < value (liquidity_incentives (inventory (model_state w'))))%Q).
  { unfold redeem_due. destruct (redeem_threshold self) as [threshold|].
    - rewrite Decimal_gt_spec. split.
      + intros Hlt. by exists threshold.
      + by intros (? & [= <-] & Hlt).
    - split; [done|]. by intros (? & [=] & _). }
  split.
  - rewrite <- Hdue. subst d. destruct (redeem_due self (model_state w')).
    + destruct Hredeem as [redeem ->]. split; [done|]. intros _.
      exists (Some redeem). rewrite !elem_of_app. left. right. apply list_elem_of_here.
    + subst redeem_events. split; [|done]. intros [built Hin]. exfalso.
      rewrite app_nil_r in Hin.
      apply elem_of_app in Hin as [Hin|Hin].
      * rewrite Forall_forall in Hpre0. by specialize (Hpre0 _ Hin).
      * apply elem_of_cons in Hin as [?|Hin]; [done|].
        rewrite Forall_forall in Hpost0. by specialize (Hpost0 _ Hin).
  - exists pre0, redeem_events. rewrite batch_of_app. repeat split; [done|].
    destruct (redeem_due self (model_state w')); [by right|by left].
Qed.

End Properties.

(** The scenarios of the fixtures. *)
Example quoting_pulse :
  pulse quoting tt start
  = (Ok tt,
     mkWorld 1001%nat (OrderTracker.track placed ∅) (model_state start)
             (calls_before ++ Execute submitted :: calls_after)).
Proof. vm_compute. reflexivity. Qed.

Example failing_pulse :
  pulse failing tt start
  = (Ok tt,
     mkWorld 1001%nat (OrderTracker.track placed ∅) (model_state start)
             (calls_before_redeem
              ++ [Execute submitted_before_redeem; PulseError "Transaction failed"])).
Proof. vm_compute. reflexivity. Qed.

(** A subscriber of [pulse_complete] that raises: the exception is
    caught like one of a step, and the pulse emits both events. *)
Example interrupted_pulse :
  pulse interrupted tt start
  = (Ok tt,
     mkWorld 1001%nat (OrderTracker.track placed ∅) (model_state start)
             (calls_before ++ Execute submitted :: calls_after
              ++ [PulseError "subscriber failed"])).
Proof. vm_compute. reflexivity. Qed.

(** C1 as the specification words it fails.  The submission of
    [unheard] raises and the exception reaches [pulse_error.on_next];
    a subscriber of [pulse_error] raises, and that exception leaves
    [pulse]. *)
Lemma pulse_propagates_subscriber_exception :
  (pulse_body unheard tt start).1 = Raise "Transaction failed"
  /\ trace (pulse unheard tt start).2
     = calls_before_redeem
       ++ [Execute submitted_before_redeem; PulseError "Transaction failed"]
  /\ (pulse unheard tt start).1 = Raise "subscriber failed"
  /\ (pulse unheard tt start).1 <> Ok tt.
Proof. vm_compute. by repeat split. Qed.

Lemma pulse_catches_witness :
  pulse failing tt start
  = (Ok tt,
     mkWorld 1001%nat (OrderTracker.track placed ∅) (model_state start)
             ((calls_before_redeem ++ [Execute submitted_before_redeem])
              ++ [PulseError "Transaction failed"]))
  /\ exists d, calls_before_redeem ++ [Execute submitted_before_redeem] = [] ++ d
               /\ Forall (fun ev => is_pulse_error ev = false) d.
Proof.
  apply (pulse_catches failing tt start "Transaction failed"
           (mkWorld 1001%nat (OrderTracker.track placed ∅) (model_state start)
                    (calls_before_redeem ++ [Execute submitted_before_redeem]))
           (Ok tt) 1001%nat).
  - vm_compute. reflexivity.
  - reflexivity.
Defined.

Lemma pulse_not_quoting_witness :
  pulse suppressed tt start
  = (Ok tt,
     mkWorld 1000%nat ∅ (mkModelState true (mkInventory (mkTokenValue 7)) [resting])
             ([] ++ [FromWallet (Some ["payer"]); ChainProcess (Some [wanted])])).
Proof.
  apply (pulse_not_quoting suppressed tt start ["payer"] 1000%nat [wanted]
           (mkModelState true (mkInventory (mkTokenValue 7)) [resting]) 1000%nat);
    reflexivity.
Defined.

Lemma pulse_single_submission_witness :
  submitted = batch_of calls_before
  /\ ordered submitted
  /\ Forall (fun ev => is_execute ev = false) calls_before
  /\ Forall (fun ev => is_execute ev = false) calls_after.
Proof.
  destruct (pulse_single_submission quoting tt start (Ok tt) (pulse quoting tt start).2
              (calls_before ++ Execute submitted :: calls_after)
              calls_before submitted calls_after)
    as (Hpre & Hpost & _ & Hbatch & Hordered & _);
    [vm_compute; reflexivity..|].
  by repeat split.
Defined.


Lemma pulse_redeem_iff_witness :
  ((exists built,
      BuildRedeem built ∈ calls_before ++ Execute submitted :: calls_after)
   <-> exists threshold,
         redeem_threshold quoting = Some threshold
         /\ (threshold
              < value (liquidity_incentives
                         (inventory (model_state (pulse quoting tt start).2))))%Q)
  /\ exists pre0 redeem_events,
       calls_before = pre0 ++ redeem_events
       /\ Forall (fun ev => is_build_redeem ev = false) pre0
       /\ (redeem_events = []
           \/ exists redeem, redeem_events = [BuildRedeem (Some redeem)])
       /\ submitted = batch_of pre0 ++ batch_of redeem_events.
Proof.
  apply (pulse_redeem_iff quoting tt start (Ok tt) (pulse quoting tt start).2
           (calls_before ++ Execute submitted :: calls_after)
           calls_before submitted calls_after);
    vm_compute; reflexivity.
Defined.

End MarketMaker.

(** ** [NodeBank] and [RootBank]: layouts, parsing and loading *)

Module Banks.

Import RootBank.

(** [int(d)] of a [Decimal]: truncation toward zero. *)
Definition Decimal_int (d : Decimal) : Z := Z.quot (Qnum d) (Z.pos (Qden d)).

(** The slice [values[0:stop]]: a negative [stop] counts from the end,
    and a bound outside the list is clamped. *)
Definition slice_to {A} (values : list A) (stop : Z) : list A :=
  if (0 <=? stop)%Z then take (Z.to_nat stop) values
  else take (length values - Z.to_nat (- stop)) values.

(** The fields [from_layout] reads from a parsed [layouts.NODE_BANK]
    and [layouts.ROOT_BANK]. *)
Record NodeBankLayout : Type := mkNodeBankLayout {
  nl_meta_data : Metadata;
  nl_deposit : Decimal;
  nl_borrow : Decimal;
  nl_vault : PublicKey
}.

Record RootBankLayout : Type := mkRootBankLayout {
  rl_meta_data : Metadata;
  rl_num_node_banks : Decimal;
  rl_node_banks : list PublicKey;
  rl_deposit_index : Decimal;
  rl_borrow_index : Decimal;
  rl_last_updated : Z
}.

Record NodeBank : Type := mkNodeBank {
  nb_account_info : AccountInfo;
  nb_version : Version;
  nb_meta_data : Metadata;
  deposit : Decimal;
  borrow : Decimal;
  vault : PublicKey
}.

Inductive BankKind : Type := Node | Root.

Section Loading.

(** [Env] is the RPC node the accounts are fetched from, [exn] the
    exceptions of the collaborators, [Context] is [mango.Context]. *)
Context {Env exn Context : Type}.

(** The exceptions of [rootbank.py], with the values their messages
    are formatted from; [Raised] is an exception of a collaborator,
    [IndexError] what indexing an empty list raises. *)
Inductive Error : Type :=
| DataLength (kind : BankKind) (actual expected : nat)
| AccountNotFound (kind : BankKind) (address : PublicKey)
| Raised (e : exn)
| IndexError.

(** The layouts of [mango/layouts], which is not among the sources:
    the size of each layout and its parser. *)
Record Layouts : Type := mkLayouts {
  NODE_BANK_sizeof : nat;
  NODE_BANK_parse : list Byte.byte -> result exn NodeBankLayout;
  ROOT_BANK_sizeof : nat;
  ROOT_BANK_parse : list Byte.byte -> result exn RootBankLayout
}.

(** [AccountInfo.load] and [AccountInfo.load_multiple], which are not
    among the sources. *)
Record AccountInfoApi : Type := mkAccountInfoApi {
  load_account : Context -> PublicKey -> Env -> result exn (option AccountInfo) * Env;
  load_accounts : Context -> list PublicKey -> Env -> result exn (list AccountInfo) * Env
}.

Variable layouts : Layouts.
Variable api : AccountInfoApi.

(** [NodeBank.from_layout], [NodeBank.parse] and [NodeBank.load]. *)
Definition node_bank_from_layout (layout : NodeBankLayout) (account_info : AccountInfo)
    (version : Version) : NodeBank :=
  mkNodeBank account_info version (nl_meta_data layout) (nl_deposit layout)
             (nl_borrow layout) (nl_vault layout).

Definition node_bank_parse (account_info : AccountInfo) : result Error NodeBank :=
  let data := data account_info in
  if negb (Nat.eqb (length data) (NODE_BANK_sizeof layouts))
  then Raise (DataLength Node (length data) (NODE_BANK_sizeof layouts))
  else match NODE_BANK_parse layouts data with
       | Ok layout => Ok (node_bank_from_layout layout account_info V1)
       | Raise e => Raise (Raised e)
       end.

Definition node_bank_load (context : Context) (address : PublicKey) (env : Env)
    : result Error NodeBank * Env :=
  match load_account api context address env with
  | (Ok (Some account_info), env') => (node_bank_parse account_info, env')
  | (Ok None, env') => (Raise (AccountNotFound Node address), env')
  | (Raise e, env') => (Raise (Raised e), env')
  end.

(** [RootBank.from_layout]: the node banks are
    [layout.node_banks[0:int(num_node_banks)]]. *)
Definition from_layout (layout : RootBankLayout) (account_info : AccountInfo)
    (version : Version) : RootBank :=
  let num_node_banks := rl_num_node_banks layout in
  let node_banks := slice_to (rl_node_banks layout) (Decimal_int num_node_banks) in
  mkRootBank account_info version (rl_meta_data layout) node_banks
             (rl_deposit_index layout) (rl_borrow_index layout) (rl_last_updated layout).

(** [RootBank.parse]. *)
Definition parse (account_info : AccountInfo) : result Error RootBank :=
  let data := data account_info in
  if negb (Nat.eqb (length data) (ROOT_BANK_sizeof layouts))
  then Raise (DataLength Root (length data) (ROOT_BANK_sizeof layouts))
  else match ROOT_BANK_parse layouts data with
       | Ok layout => Ok (from_layout layout account_info V1)
       | Raise e => Raise (Raised e)
       end.

(** [RootBank.load]. *)
Definition load (context : Context) (address : PublicKey) (env : Env)
    : result Error RootBank * Env :=
  match load_account api context address env with
  | (Ok (Some account_info), env') => (parse account_info, env')
  | (Ok None, env') => (Raise (AccountNotFound Root address), env')
  | (Raise e, env') => (Raise (Raised e), env')
  end.

(** The loop of [RootBank.load_multiple]: each account is parsed and
    appended to [root_banks]. *)
Fixpoint parse_each (account_infos : list AccountInfo) (root_banks : list RootBank)
    : result Error (list RootBank) :=
  match account_infos with
  | [] => Ok root_banks
  | account_info :: rest =>
      match parse account_info with
      | Ok root_bank => parse_each rest (root_banks ++ [root_bank])
      | Raise e => Raise e
      end
  end.

(** [RootBank.load_multiple]. *)
Definition load_multiple (context : Context) (addresses : list PublicKey) (env : Env)
    : result Error (list RootBank) * Env :=
  match load_accounts api context addresses env with
  | (Ok account_infos, env') => (parse_each account_infos [], env')
  | (Raise e, env') => (Raise (Raised e), env')
  end.

(** [list(map(NodeBank.parse, infos))]: every element is parsed, in
    order, and the first exception ends the traversal. *)
Fixpoint list_map_parse (account_infos : list AccountInfo) : result Error (list NodeBank) :=
  match account_infos with
  | [] => Ok []
  | account_info :: rest =>
      match node_bank_parse account_info with
      | Ok node_bank =>
          match list_map_parse rest with
          | Ok node_banks => Ok (node_bank :: node_banks)
          | Raise e => Raise e
          end
      | Raise e => Raise e
      end
  end.

(** [RootBank.pick_node_bank]. *)
Definition pick_node_bank (self : RootBank) (context : Context) (env : Env)
    : result Error NodeBank * Env :=
  match load_accounts api context (node_banks self) env with
  | (Ok node_bank_account_infos, env') =>
      (match list_map_parse node_bank_account_infos with
       | Ok (node_bank :: _) => Ok node_bank
       | Ok [] => Raise IndexError
       | Raise e => Raise e
       end, env')
  | (Raise e, env') => (Raise (Raised e), env')
  end.

Definition parses (account_info : AccountInfo) : Prop :=
  exists root_bank, parse account_info = Ok root_bank.

Definition node_bank_parses (account_info : AccountInfo) : Prop :=
  exists node_bank, node_bank_parse account_info = Ok node_bank.

End Loading.

(** Fixtures: layouts of two bytes whose first byte is the number of
    node banks, and an RPC node that holds a list of accounts. *)
Definition fake_layouts : @Layouts string :=
  mkLayouts
    2 (fun _ => Ok (mkNodeBankLayout (mkMetadata 0 V1 true) 3 1 key3))
    2 (fun data =>
         match data with
         | Byte.xff :: _ => Raise "bad layout"
         | count :: _ =>
             Ok (mkRootBankLayout (mkMetadata 0 V1 true)
                   (inject_Z (Z.of_N (Byte.to_N count)))
                   [key1; key2; key3] 5 2 0)
         | [] => Raise "no data"
         end).

Definition fake_api : @AccountInfoApi (list AccountInfo) string unit :=
  mkAccountInfoApi
    (fun _ address env =>
       (Ok (head (filter (fun account_info => ai_address account_info = address) env)), env))
    (fun _ addresses env =>
       (Ok (filter (fun account_info => ai_address account_info ∈ addresses) env), env)).

Definition account (key : PublicKey) (data : list Byte.byte) : AccountInfo :=
  mkAccountInfo key false 0 key 0 data.

Definition well_formed1 : AccountInfo := account key1 [Byte.x02; Byte.x00].
Definition well_formed2 : AccountInfo := account key2 [Byte.x05; Byte.x00].
Definition too_short : AccountInfo := account key3 [Byte.x02].

Section Properties.

Context {Env exn Context : Type}.
Variable layouts : @Layouts exn.
Variable api : @AccountInfoApi Env exn Context.

(** X1.  [from_layout]: the node banks are always a prefix of the layout's
    array.  A count at or above the length of the array is clamped to
    the whole array instead of raising; a count that truncates to a
    negative integer does not give an empty list but drops that many
    entries from the end. *)
Theorem from_layout_node_banks (layout : RootBankLayout) (account_info : AccountInfo)
    (version : Version) :
  let count := Decimal_int (rl_num_node_banks layout) in
  let result := node_banks (from_layout layout account_info version) in
  result `prefix_of` rl_node_banks layout
  /\ ((Z.of_nat (length (rl_node_banks layout)) <= count)%Z ->
      result = rl_node_banks layout)
  /\ ((0 <= count)%Z ->
      length result = Nat.min (Z.to_nat count) (length (rl_node_banks layout)))
  /\ ((count < 0)%Z ->
      length result = (length (rl_node_banks layout) - Z.to_nat (- count))%nat).
Proof.
  cbv zeta. unfold from_layout. cbn [node_banks]. unfold slice_to.
  destruct (Z.leb_spec 0 (Decimal_int (rl_num_node_banks layout))) as [Hpos|Hneg].
  - repeat split.
    + apply prefix_take.
    + intros Hge. apply take_ge. lia.
    + intros _. apply length_take.
    + lia.
  - repeat split.
    + apply prefix_take.
    + lia.
    + lia.
    + intros _. rewrite length_take. lia.
Qed.

Lemma parse_account_info (account_info : AccountInfo) (root_bank : RootBank) :
  parse layouts account_info = Ok root_bank ->
  account_info = RootBank.account_info root_bank
  /\ version root_bank = V1
  /\ length (data account_info) = ROOT_BANK_sizeof layouts.
Proof.
  unfold parse. cbv zeta.
  destruct (Nat.eqb_spec (length (data account_info)) (ROOT_BANK_sizeof layouts))
    as [Hlen|Hlen]; cbn; [|discriminate].
  destruct (ROOT_BANK_parse layouts (data account_info)) as [layout|e]; [|discriminate].
  by intros [= <-].
Qed.

Lemma parse_each_spec (account_infos : list AccountInfo) :
  forall root_banks : list RootBank,
    match parse_each layouts account_infos root_banks with
    | Ok result =>
        exists parsed, result = root_banks ++ parsed
                       /\ Forall2 (fun account_info root_bank =>
                                     parse layouts account_info = Ok root_bank)
                                  account_infos parsed
    | Raise e =>
        exists i account_info,
          account_infos !! i = Some account_info
          /\ parse layouts account_info = Raise e
          /\ Forall (parses layouts) (take i account_infos)
    end.
Proof.
  induction account_infos as [|account_info rest IH]; intros root_banks; cbn [parse_each].
  - exists []. by rewrite app_nil_r.
  - destruct (parse layouts account_info) as [root_bank|e] eqn:Hparse.
    + specialize (IH (root_banks ++ [root_bank])).
      destruct (parse_each layouts rest (root_banks ++ [root_bank])) as [result|e].
      * destruct IH as (parsed & -> & Hall). exists (root_bank :: parsed).
        rewrite <- app_assoc. split; [done|]. by constructor.
      * destruct IH as (i & ai & Hi & Hfail & Hbefore). exists (S i), ai.
        repeat split; [done..|]. cbn. constructor; [by exists root_bank|done].
    + exists 0%nat, account_info. repeat split; [done|]. constructor.
Qed.

Lemma parsed_account_infos (account_infos : list AccountInfo) (parsed : list RootBank) :
  Forall2 (fun account_info root_bank => parse layouts account_info = Ok root_bank)
          account_infos parsed ->
  RootBank.account_info <$> parsed = account_infos.
Proof.
  induction 1 as [|account_info root_bank rest parsed Hparse Hall IH]; [done|].
  cbn. f_equal; [|done]. by apply parse_account_info in Hparse as [-> _].
Qed.

(** X2.  [load_multiple] is all or nothing.  When the accounts are fetched,
    it returns a bank for every account, in the order of the accounts,
    each the parse of its account; or it raises the exception of the
    first account that does not parse, and returns no bank at all. *)
Theorem load_multiple_all_or_nothing (context : Context) (addresses : list PublicKey)
    (env env' : Env) (account_infos : list AccountInfo) :
  load_accounts api context addresses env = (Ok account_infos, env') ->
  snd (load_multiple layouts api context addresses env) = env'
  /\ match fst (load_multiple layouts api context addresses env) with
     | Ok root_banks =>
         Forall2 (fun account_info root_bank =>
                    parse layouts account_info = Ok root_bank)
                 account_infos root_banks
         /\ RootBank.account_info <$> root_banks = account_infos
     | Raise e =>
         exists i account_info,
           account_infos !! i = Some account_info
           /\ parse layouts account_info = Raise e
           /\ Forall (parses layouts) (take i account_infos)
     end.
Proof.
  intros Hload. unfold load_multiple. rewrite Hload. cbn [fst snd]. split; [done|].
  pose proof (parse_each_spec account_infos []) as Hspec.
  destruct (parse_each layouts account_infos []) as [root_banks|e]; [|done].
  destruct Hspec as (parsed & -> & Hall). cbn [app]. split; [done|].
  by apply parsed_account_infos.
Qed.

Lemma filter_key_singleton {A K} `{EqDecision K} (f : A -> K) (l : list A)
    (i : nat) (v : A) :
  NoDup (f <$> l) -> l !! i = Some v -> filter (fun x => f x = f v) l = [v].
Proof.
  revert i. induction l as [|x l IH]; intros i Hnodup Hi; [done|].
  cbn in Hnodup. apply NoDup_cons in Hnodup as [Hx Hnodup].
  rewrite filter_cons. destruct i as [|i]; cbn in Hi.
  - injection Hi as ->. rewrite decide_True by done. f_equal.
    apply elem_of_nil_inv. intros y [Hy Hin]%list_elem_of_filter.
    apply Hx. rewrite <- Hy. by apply list_elem_of_fmap_2.
  - rewrite decide_False; [by eapply IH|].
    intros Heq. apply Hx. rewrite Heq.
    apply list_elem_of_fmap_2. by eapply list_elem_of_lookup_2.
Qed.

(** X3.  [find_by_address] finds every element of a sequence whose
    addresses are pairwise distinct. *)
Theorem find_by_address_distinct (values : list RootBank) (i : nat) (value : RootBank) :
  NoDup (address <$> values) ->
  values !! i = Some value ->
  fst (find_by_address values (address value)) = Ok value.
Proof.
  intros Hnodup Hi.
  pose proof (find_by_address_cases values (address value)) as Hcases.
  by rewrite (filter_key_singleton address values i value Hnodup Hi) in Hcases.
Qed.

(** X4.  The element [find_by_address] returns does not depend on the order
    of the sequence. *)
Theorem find_by_address_permutation (values values' : list RootBank)
    (address' : PublicKey) (value : RootBank) :
  values ≡ₚ values' ->
  fst (find_by_address values address') = Ok value
  <-> fst (find_by_address values' address') = Ok value.
Proof.
  intros Hperm.
  assert (Hfilter : filter (fun v => address v = address') values
                    ≡ₚ filter (fun v => address v = address') values')
    by by rewrite Hperm.
  pose proof (find_by_address_cases values address') as H1.
  pose proof (find_by_address_cases values' address') as H2.
  destruct (filter _ values) as [|v [|v0 l]] eqn:E1.
  - apply Permutation_nil_l in Hfilter. rewrite <- Hfilter in H2.
    rewrite H1, H2. split; discriminate.
  - apply Permutation_singleton_l in Hfilter. rewrite <- Hfilter in H2.
    by rewrite H1, H2.
  - apply Permutation_length in Hfilter. cbn in Hfilter.
    destruct (filter _ values') as [|v' [|v0' l']]; try discriminate.
    rewrite H1, H2. split; discriminate.
Qed.

(** X5.  [load_multiple] followed by [find_by_address]: when the accounts
    fetched have pairwise distinct addresses and all parse, looking up
    the address of any of them gives the bank parsed from it. *)
Theorem load_multiple_then_find (context : Context) (addresses : list PublicKey)
    (env env' : Env) (account_infos : list AccountInfo) (root_banks : list RootBank)
    (i : nat) (account_info : AccountInfo) :
  load_accounts api context addresses env = (Ok account_infos, env') ->
  fst (load_multiple layouts api context addresses env) = Ok root_banks ->
  NoDup (ai_address <$> account_infos) ->
  account_infos !! i = Some account_info ->
  exists root_bank,
    root_banks !! i = Some root_bank
    /\ parse layouts account_info = Ok root_bank
    /\ fst (find_by_address root_banks (ai_address account_info)) = Ok root_bank.
Proof.
  intros Hload Hbanks Hnodup Hi.
  unfold load_multiple in Hbanks. rewrite Hload in Hbanks. cbn [fst] in Hbanks.
  pose proof (parse_each_spec account_infos []) as Hspec.
  rewrite Hbanks in Hspec. destruct Hspec as (parsed & -> & Hall). cbn [app] in *.
  pose proof (parsed_account_infos _ _ Hall) as Hinfos.
  destruct (Forall2_lookup_l _ _ _ _ _ Hall Hi) as (root_bank & Hbank & Hparse).
  exists root_bank. repeat split; [done..|].
  assert (Haddress : address <$> parsed = ai_address <$> account_infos).
  { rewrite <- Hinfos. by rewrite <- list_fmap_compose. }
  apply parse_account_info in Hparse as [-> _].
  rewrite <- Haddress in Hnodup.
  pose proof (find_by_address_cases parsed (address root_bank)) as Hcases.
  by rewrite (filter_key_singleton address parsed i root_bank Hnodup Hbank) in Hcases.
Qed.

Lemma list_map_parse_spec (account_infos : list AccountInfo) :
  match list_map_parse layouts account_infos with
  | Ok node_banks =>
      Forall2 (fun account_info node_bank =>
                 node_bank_parse layouts account_info = Ok node_bank)
              account_infos node_banks
  | Raise e =>
      exists i account_info,
        account_infos !! i = Some account_info
        /\ node_bank_parse layouts account_info = Raise e
  end.
Proof.
  induction account_infos as [|account_info rest IH]; cbn [list_map_parse]; [constructor|].
  destruct (node_bank_parse layouts account_info) as [node_bank|e] eqn:Hparse.
  - destruct (list_map_parse layouts rest) as [node_banks|e].
    + by constructor.
    + destruct IH as (i & ai & Hi & Hfail). by exists (S i), ai.
  - by exists 0%nat, account_info.
Qed.

(** X6.  [pick_node_bank] parses every node bank account it fetched before
    it takes the first: it returns a node bank only when all of them
    parse, so one malformed account anywhere makes it raise; and it
    raises [IndexError] when no account was fetched. *)
Theorem pick_node_bank_parses_all (self : RootBank) (context : Context)
    (env env' : Env) (account_infos : list AccountInfo) :
  load_accounts api context (node_banks self) env = (Ok account_infos, env') ->
  (forall node_bank,
      fst (pick_node_bank layouts api self context env) = Ok node_bank ->
      exists first rest,
        account_infos = first :: rest
        /\ node_bank_parse layouts first = Ok node_bank
        /\ Forall (node_bank_parses layouts) account_infos)
  /\ (forall i account_info e,
        account_infos !! i = Some account_info ->
        node_bank_parse layouts account_info = Raise e ->
        exists e', fst (pick_node_bank layouts api self context env) = Raise e')
  /\ (account_infos = [] ->
      fst (pick_node_bank layouts api self context env) = Raise IndexError).
Proof.
  intros Hload. unfold pick_node_bank. rewrite Hload. cbn [fst].
  pose proof (list_map_parse_spec account_infos) as Hspec.
  destruct (list_map_parse layouts account_infos) as [node_banks|e] eqn:Hmap.
  - repeat split.
    + intros node_bank Hok. destruct node_banks as [|nb node_banks]; [discriminate|].
      injection Hok as ->.
      destruct account_infos as [|first rest]; [by apply Forall2_nil_cons_inv in Hspec|].
      exists first, rest. apply Forall2_cons_1 in Hspec as [Hfirst Hrest].
      repeat split; [done|]. constructor; [by exists node_bank|].
      clear -Hrest. induction Hrest as [|ai nb ? ? Hp ? IH]; constructor; [|done].
      by exists nb.
    + intros i account_info e Hi Hfail. exfalso.
      destruct (Forall2_lookup_l _ _ _ _ _ Hspec Hi) as (nb & _ & Hok). congruence.
    + intros ->. apply Forall2_nil_inv_l in Hspec as ->. done.
  - repeat split.
    + discriminate.
    + intros _ _ _ _ _. by exists e.
    + intros ->. discriminate.
Qed.

End Properties.

Lemma load_multiple_all_or_nothing_witness :
  snd (load_multiple fake_layouts fake_api tt [key1; key3] [well_formed1; too_short])
  = [well_formed1; too_short]
  /\ match fst (load_multiple fake_layouts fake_api tt [key1; key3]
                  [well_formed1; too_short]) with
     | Ok root_banks =>
         Forall2 (fun account_info root_bank =>
                    parse fake_layouts account_info = Ok root_bank)
                 [well_formed1; too_short] root_banks
         /\ RootBank.account_info <$> root_banks = [well_formed1; too_short]
     | Raise e =>
         exists i account_info,
           [well_formed1; too_short] !! i = Some account_info
           /\ parse fake_layouts account_info = Raise e
           /\ Forall (parses fake_layouts) (take i [well_formed1; too_short])
     end.
Proof.
  apply (load_multiple_all_or_nothing fake_layouts fake_api tt [key1; key3]
           [well_formed1; too_short] [well_formed1; too_short]
           [well_formed1; too_short]).
  reflexivity.
Defined.

Lemma find_by_address_distinct_witness :
  fst (find_by_address [fake_root_bank key1; fake_root_bank key2]
         (address (fake_root_bank key2)))
  = Ok (fake_root_bank key2).
Proof.
  apply (find_by_address_distinct [fake_root_bank key1; fake_root_bank key2] 1%nat).
  - apply NoDup_cons. split; [|apply NoDup_singleton].
    intros Hin%list_elem_of_singleton. discriminate Hin.
  - reflexivity.
Defined.

Lemma find_by_address_permutation_witness :
  fst (find_by_address [fake_root_bank key1; fake_root_bank key2] key2)
  = Ok (fake_root_bank key2)
  <-> fst (find_by_address [fake_root_bank key2; fake_root_bank key1] key2)
      = Ok (fake_root_bank key2).
Proof.
  apply (find_by_address_permutation [fake_root_bank key1; fake_root_bank key2]
           [fake_root_bank key2; fake_root_bank key1]).
  apply perm_swap.
Defined.

Lemma load_multiple_then_find_witness :
  exists root_bank,
    [from_layout (mkRootBankLayout (mkMetadata 0 V1 true) 2 [key1; key2; key3] 5 2 0)
       well_formed1 V1;
     from_layout (mkRootBankLayout (mkMetadata 0 V1 true) 5 [key1; key2; key3] 5 2 0)
       well_formed2 V1] !! 1%nat = Some root_bank
    /\ parse fake_layouts well_formed2 = Ok root_bank
    /\ fst (find_by_address
              [from_layout
                 (mkRootBankLayout (mkMetadata 0 V1 true) 2 [key1; key2; key3] 5 2 0)
                 well_formed1 V1;
               from_layout
                 (mkRootBankLayout (mkMetadata 0 V1 true) 5 [key1; key2; key3] 5 2 0)
                 well_formed2 V1]
              (ai_address well_formed2))
       = Ok root_bank.
Proof.
  apply (load_multiple_then_find fake_layouts fake_api tt [key1; key2]
           [well_formed1; well_formed2] [well_formed1; well_formed2]
           [well_formed1; well_formed2]).
  - reflexivity.
  - vm_compute. reflexivity.
  - apply NoDup_cons. split; [|apply NoDup_singleton].
    intros Hin%list_elem_of_singleton. discriminate Hin.
  - reflexivity.
Defined.

Lemma pick_node_bank_parses_all_witness :
  (forall node_bank,
      fst (pick_node_bank fake_layouts fake_api
             (from_layout
                (mkRootBankLayout (mkMetadata 0 V1 true) 3 [key1; key2; key3] 5 2 0)
                well_formed1 V1)
             tt [well_formed1; too_short]) = Ok node_bank ->
      exists first rest,
        [well_formed1; too_short] = first :: rest
        /\ node_bank_parse fake_layouts first = Ok node_bank
        /\ Forall (node_bank_parses fake_layouts) [well_formed1; too_short])
  /\ (forall i account_info e,
        [well_formed1; too_short] !! i = Some account_info ->
        node_bank_parse fake_layouts account_info = Raise e ->
        exists e',
          fst (pick_node_bank fake_layouts fake_api
                 (from_layout
                    (mkRootBankLayout (mkMetadata 0 V1 true) 3 [key1; key2; key3] 5 2 0)
                    well_formed1 V1)
                 tt [well_formed1; too_short]) = Raise e')
  /\ ([well_formed1; too_short] = [] ->
      fst (pick_node_bank fake_layouts fake_api
             (from_layout
                (mkRootBankLayout (mkMetadata 0 V1 true) 3 [key1; key2; key3] 5 2 0)
                well_formed1 V1)
             tt [well_formed1; too_short]) = Raise IndexError).
Proof.
  apply (pick_node_bank_parses_all fake_layouts fake_api
           (from_layout
              (mkRootBankLayout (mkMetadata 0 V1 true) 3 [key1; key2; key3] 5 2 0)
              well_formed1 V1)
           tt [well_formed1; too_short] [well_formed1; too_short]).
  vm_compute. reflexivity.
Defined.

(** A root bank whose layout announces five node banks but holds three
    keeps the three; the malformed node bank account makes
    [pick_node_bank] raise although the first account parses. *)
Example clamped_node_banks :
  node_banks (from_layout
                (mkRootBankLayout (mkMetadata 0 V1 true) 5 [key1; key2; key3] 5 2 0)
                well_formed2 V1)
  = [key1; key2; key3].
Proof. reflexivity. Qed.

Example malformed_later_node_bank :
  fst (pick_node_bank fake_layouts fake_api
         (from_layout
            (mkRootBankLayout (mkMetadata 0 V1 true) 3 [key1; key2; key3] 5 2 0)
            well_formed1 V1)
         tt [well_formed1; too_short])
  = Raise (DataLength Node 1 2).
Proof. vm_compute. reflexivity. Qed.

End Banks.

(** ** [SimpleMarketMaker]: prices, sizes, cleanup and one iteration *)

Module SimpleLoop.

Import SimpleMarketMaker.

(** The members of [mango.OrderType]; the market maker places
    [POST_ONLY] orders. *)
Inductive OrderType : Type := LIMIT | IOC | POST_ONLY.

(** [timedelta.seconds] of a pause given in whole seconds: a
    [timedelta] is normalised to days and [0 <= seconds < 86400], and
    [seconds] reads the second part only. *)
Definition timedelta_seconds (pause : Z) : Z := (pause mod 86400)%Z.

Section Loop.

(** [Env] is the ledger and the oracle; [exn] the exceptions of the
    collaborators; [Token], [Group] and [Account] are the classes of
    [mango] of those names. *)
Context {Env exn Token Group Account : Type}.

Record TokenValue : Type := mkTokenValue {
  token : Token;
  value : Decimal
}.

(** The parts of [mango.Price] the market maker reads: [mid_price],
    [market.base] and [market.quote]. *)
Record Price : Type := mkPrice {
  mid_price : Decimal;
  base : Token;
  quote : Token
}.

(** The exceptions of [simplemarketmaker.py] and of the division of
    [Decimal]s; [Raised] is an exception of a collaborator. *)
Inductive Error : Type :=
| NoMangoAccount
| BaseTokenNotFound (base : Token)
| QuoteTokenNotFound (quote : Token)
| DivisionByZero
| InvalidOperation
| Raised (e : exn).

Definition Eff (A : Type) : Type := Env -> result exn A * Env.

(** The collaborators: [self.oracle.fetch_price], [mango.Group.load],
    [mango.Account.load_all_for_owner], [account.net_assets],
    [mango.TokenValue.find_by_token] and the three methods of
    [self.market_operations]. *)
Record Collaborators : Type := mkCollaborators {
  fetch_price : Eff Price;
  group_load : Eff Group;
  load_all_for_owner : Group -> Eff (list Account);
  net_assets : Account -> list (option TokenValue);
  find_by_token : list (option TokenValue) -> Token -> result exn (option TokenValue);
  load_my_orders : Eff (list Order);
  cancel_order : Order -> Eff unit;
  place_order : Side -> OrderType -> Decimal -> Decimal -> Eff Order
}.

(** The quotient of two [Decimal]s rounded to the context precision;
    any rounding will do for what is proved below. *)
Variable quotient : Decimal -> Decimal -> Decimal.

Variable collaborators : Collaborators.

(** [x / y] on [Decimal]s: a zero divisor raises [DivisionByZero], or
    [InvalidOperation] when the dividend is zero too. *)
Definition Decimal_div (x y : Decimal) : result Error Decimal :=
  if Qeq_bool y 0
  then (if Qeq_bool x 0 then Raise InvalidOperation else Raise DivisionByZero)
  else Ok (quotient x y).

(** Every call of a collaborator and of [time.sleep], in the order
    made. *)
Inductive Call : Type :=
| FetchPrice
| GroupLoad
| LoadAllForOwner
| LoadMyOrders
| CancelOrder (order : Order)
| PlaceOrder (side : Side) (order_type : OrderType) (price size : Decimal)
| Sleep (seconds : Z).

Record World : Type := mkWorld {
  env : Env;
  calls : list Call
}.

Definition M (A : Type) : Type := World -> result Error A * World.

Definition ret {A} (a : A) : M A := fun w => (Ok a, w).

Definition bind {A B} (m : M A) (k : A -> M B) : M B :=
  fun w =>
    match m w with
    | (Ok a, w') => k a w'
    | (Raise e, w') => (Raise e, w')
    end.

#[export] Instance M_ret : MRet M := @ret.
#[export] Instance M_bind : MBind M := fun A B k m => bind m k.

Definition raise {A} (e : Error) : M A := fun w => (Raise e, w).

(** A pure computation that may raise. *)
Definition lift {A} (r : result Error A) : M A := fun w => (r, w).

(** A call of a collaborator. *)
Definition call {A} (c : Call) (f : Eff A) : M A :=
  fun w =>
    let (r, env') := f (env w) in
    (match r with Ok a => Ok a | Raise e => Raise (Raised e) end,
     mkWorld env' (calls w ++ [c])).

(** [time.sleep(seconds)]. *)
Definition sleep (seconds : Z) : M unit :=
  fun w => (Ok tt, mkWorld (env w) (calls w ++ [Sleep seconds])).

(** [stop]. *)
Definition stop (self : SimpleMarketMaker) : SimpleMarketMaker :=
  mkSimpleMarketMaker (spread_ratio self) (position_size_ratio self)
                      (existing_order_tolerance self) (pause self) true.

(** [cleanup]: every order of the wallet is cancelled. *)
Fixpoint cancel_all (orders : list Order) : M unit :=
  match orders with
  | [] => ret tt
  | order :: rest =>
      call (CancelOrder order) (cancel_order collaborators order);;
      cancel_all rest
  end.


(** [fetch_inventory]. *)
Definition fetch_inventory : M (list (option TokenValue)) :=
  group ← call GroupLoad (group_load collaborators);
  accounts ← call LoadAllForOwner (load_all_for_owner collaborators group);
  match accounts with
  | [] => raise NoMangoAccount
  | account :: _ => ret (net_assets collaborators account)
  end.

(** [calculate_order_prices]. *)
Definition calculate_order_prices (self : SimpleMarketMaker) (price : Price)
    : Decimal * Decimal :=
  let bid := Decimal_sub (mid_price price)
                         (Decimal_mul (mid_price price) (spread_ratio self)) in
  let ask := Decimal_add (mid_price price)
                         (Decimal_mul (mid_price price) (spread_ratio self)) in
  (bid, ask).

(** [calculate_order_sizes]. *)
Definition calculate_order_sizes (self : SimpleMarketMaker) (price : Price)
    (inventory : list (option TokenValue)) : result Error (Decimal * Decimal) :=
  match find_by_token collaborators inventory (base price) with
  | Raise e => Raise (Raised e)
  | Ok None => Raise (BaseTokenNotFound (base price))
  | Ok (Some base_tokens) =>
      match find_by_token collaborators inventory (quote price) with
      | Raise e => Raise (Raised e)
      | Ok None => Raise (QuoteTokenNotFound (quote price))
      | Ok (Some quote_tokens) =>
          let total := Decimal_add (Decimal_mul (value base_tokens) (mid_price price))
                                   (value quote_tokens) in
          let position_size := Decimal_mul total (position_size_ratio self) in
          match Decimal_div position_size (mid_price price) with
          | Raise e => Raise e
          | Ok buy_size =>
              match Decimal_div position_size (mid_price price) with
              | Raise e => Raise e
              | Ok sell_size => Ok (buy_size, sell_size)
              end
          end
      end
  end.

Definition on_side (side' : Side) (order : Order) : bool :=
  match side order, side' with
  | BUY, BUY | SELL, SELL => true
  | _, _ => false
  end.

(** Lines 88-96 for [BUY] and lines 98-106 for [SELL], which differ in
    the side, the price and the size only: when the orders of the side
    require action they are all cancelled and one [POST_ONLY] order is
    placed. *)
Definition refresh_side (self : SimpleMarketMaker) (side' : Side)
    (current_orders : list Order) (price' size' : Decimal) : M unit :=
  let side_orders := List.filter (on_side side') current_orders in
  if orders_require_action self side_orders price' size'
  then cancel_all side_orders;;
       call (PlaceOrder side' POST_ONLY price' size')
            (place_order collaborators side' POST_ONLY price' size');;
       ret tt
  else ret tt.

(** Lines 78-106: the body of the [try] statement of the loop. *)
Definition iteration_body (self : SimpleMarketMaker) : M unit :=
  price ← call FetchPrice (fetch_price collaborators);
  inventory ← fetch_inventory;
  let '(bid, ask) := calculate_order_prices self price in
  '(buy_size, sell_size) ← lift (calculate_order_sizes self price inventory);
  current_orders ← call LoadMyOrders (load_my_orders collaborators);
  refresh_side self BUY current_orders bid buy_size;;
  refresh_side self SELL current_orders ask sell_size.

(** Lines 75-113: one turn of the loop of [start].  An exception of
    the body is logged and dropped; then the loop sleeps for
    [self.pause.seconds]. *)
Definition iteration (self : SimpleMarketMaker) : M unit :=
  fun w =>
    let w' := snd (iteration_body self w) in
    sleep (timedelta_seconds (pause self)) w'.

(** *** Plans *)

(** What one side asks of the market when every call returns. *)
Definition side_plan (self : SimpleMarketMaker) (side' : Side)
    (current_orders : list Order) (price' size' : Decimal) : list Call :=
  let side_orders := List.filter (on_side side') current_orders in
  if orders_require_action self side_orders price' size'
  then (CancelOrder <$> side_orders) ++ [PlaceOrder side' POST_ONLY price' size']
  else [].

Definition is_sleep (c : Call) : bool :=
  match c with Sleep _ => true | _ => false end.

Definition is_market_operation (c : Call) : bool :=
  match c with CancelOrder _ | PlaceOrder _ _ _ _ => true | _ => false end.

End Loop.

(** Fixtures: an oracle that quotes a mid price of 100, an account
    holding 2 of the base token and 300 of the quote token, a ledger
    that counts the calls it serves, and a division that does not
    round. *)
Definition fake_price : @Price string := mkPrice 100 "BTC" "USDT".

Definition fake_inventory : list (option (@TokenValue string)) :=
  [Some (mkTokenValue "BTC" 2); None; Some (mkTokenValue "USDT" 300)].

Definition fake_find (values : list (option (@TokenValue string))) (wanted : string)
    : result string (option (@TokenValue string)) :=
  Ok (mjoin (head (filter (fun v => match v with
                                    | Some tv => bool_decide (token tv = wanted)
                                    | None => false
                                    end = true) values))).

Definition fake_collaborators (resting : list Order)
    : @Collaborators nat string string unit (list (option (@TokenValue string))) :=
  mkCollaborators
    (fun env => (Ok fake_price, S env))
    (fun env => (Ok tt, S env))
    (fun _ env => (Ok [fake_inventory], S env))
    (fun account => account)
    fake_find
    (fun env => (Ok resting, S env))
    (fun _ env => (Ok tt, S env))
    (fun side' _ price' size' env => (Ok (mkOrder None 0 side' price' size'), S env)).

Definition exact_quotient (x y : Decimal) : Decimal := (x / y)%Q.

Definition sell (p s : Decimal) : Order := mkOrder None 0%Z SELL p s.

Definition fresh : @World nat := mkWorld 0%nat [].

Definition half : Decimal :=
  exact_quotient (Decimal_mul (Decimal_add (Decimal_mul 2 100) 300) (1 # 10)) 100.

Definition crowded : list Order := [buy 99 5; sell 101 5; buy 50 1].

Definition settled : list Order := [buy 99 half; sell 101 half].

Section Properties.

Context {Env exn Token Group Account : Type}.
Variable quotient : Decimal -> Decimal -> Decimal.
Variable collaborators : @Collaborators Env exn Token Group Account.

Local Abbreviation World' := (@World Env).
Local Abbreviation Error' := (@Error exn Token).

Implicit Types (self : SimpleMarketMaker) (w : World') (orders : list Order).

Ltac unfold_monad :=
  unfold mbind, M_bind, mret, M_ret, bind, ret, raise, lift, call, sleep in *.




(** The loop of [cleanup] and of each side: the orders are cancelled
    in order; a cancel that raises ends the loop, and the orders after
    it are not cancelled. *)
Lemma cancel_all_spec orders :
  forall w (r : result Error' unit) w',
    cancel_all collaborators orders w = (r, w') ->
    exists k,
      calls w' = calls w ++ (CancelOrder <$> take k orders)
      /\ match r with
         | Ok _ => k = length orders
         | Raise e => (1 <= k <= length orders)%nat /\ exists e', e = Raised e'
         end.
Proof.
  induction orders as [|order rest IH]; intros w r w' Hrun.
  - cbn in Hrun. unfold_monad. injection Hrun as <- <-.
    exists 0%nat. by rewrite app_nil_r.
  - cbn [cancel_all] in Hrun. unfold_monad.
    destruct (cancel_order collaborators order (env w)) as [[[]|e] env1]; cbn in Hrun.
    + apply IH in Hrun as (k & Hcalls & Hr). cbn in Hcalls.
      exists (S k). rewrite Hcalls, <- app_assoc. split; [done|].
      destruct r; [cbn; lia|]. destruct Hr as [Hk He]. split; [cbn; lia|done].
    + injection Hrun as <- <-. exists 1%nat. cbn. rewrite take_0.
      split; [done|]. split; [lia|by exists e].
Qed.



(** One side of the iteration: the calls are a prefix of the plan of
    the side, the whole plan when the side returns. *)
Lemma refresh_side_spec self (side' : Side) (current_orders : list Order)
    (price' size' : Decimal) w (r : result Error' unit) w' :
  refresh_side collaborators self side' current_orders price' size' w = (r, w') ->
  exists ops,
    calls w' = calls w ++ ops
    /\ ops `prefix_of` side_plan self side' current_orders price' size'
    /\ (r = Ok tt -> ops = side_plan self side' current_orders price' size').
Proof.
  unfold refresh_side, side_plan. cbv zeta.
  destruct (orders_require_action self _ price' size');
    [|unfold_monad; intros [= <- <-]; exists []; by rewrite app_nil_r].
  unfold_monad.
  destruct (cancel_all collaborators _ w) as [[[]|e] w1] eqn:Hcancel;
    apply cancel_all_spec in Hcancel as (k & Hcalls & Hr).
  - subst k. rewrite firstn_all in Hcalls.
    destruct (place_order collaborators side' POST_ONLY price' size' (env w1))
      as [[placed|e] env2]; intros [= <- <-]; cbn [calls]; eexists;
      (split; [rewrite Hcalls, <- app_assoc; reflexivity|]); by split.
  - intros [= <- <-]. eexists. split; [exact Hcalls|]. split; [|done].
    apply prefix_app_r. rewrite fmap_take. apply prefix_take.
Qed.


Lemma side_plan_market_operations self (side' : Side) (current_orders : list Order)
    (price' size' : Decimal) :
  Forall (fun c => is_sleep c = false) (side_plan self side' current_orders price' size').
Proof.
  unfold side_plan. cbv zeta. destruct (orders_require_action self _ price' size');
    [|constructor].
  apply Forall_app_2; [|by repeat constructor].
  by apply Forall_fmap, Forall_true.
Qed.

Lemma prefix_Forall {A} (P : A -> Prop) (l1 l2 : list A) :
  l1 `prefix_of` l2 -> Forall P l2 -> Forall P l1.
Proof. intros [k ->] Hall. by apply Forall_app in Hall as [? _]. Qed.

(** The body of the iteration never sleeps. *)
Lemma iteration_body_calls self w :
  exists d, calls (iteration_body quotient collaborators self w).2 = calls w ++ d
            /\ Forall (fun c => is_sleep c = false) d.
Proof.
  unfold iteration_body, fetch_inventory. unfold_monad.
  destruct (fetch_price collaborators (env w)) as [[price|e] env1]; cbn;
    [|exists [FetchPrice]; by repeat constructor].
  destruct (group_load collaborators env1) as [[group|e] env2]; cbn;
    [|exists [FetchPrice; GroupLoad]; rewrite <- app_assoc; by repeat constructor].
  destruct (load_all_for_owner collaborators group env2) as [[accounts|e] env3]; cbn;
    [|exists [FetchPrice; GroupLoad; LoadAllForOwner]; rewrite <- !app_assoc;
      by repeat constructor].
  destruct accounts as [|account accounts]; cbn;
    [exists [FetchPrice; GroupLoad; LoadAllForOwner]; rewrite <- !app_assoc;
      by repeat constructor|].
  destruct (calculate_order_sizes quotient collaborators self price _)
    as [[buy_size sell_size]|e]; cbn;
    [|exists [FetchPrice; GroupLoad; LoadAllForOwner]; rewrite <- !app_assoc;
      by repeat constructor].
  destruct (load_my_orders collaborators env3) as [[current_orders|e] env4]; cbn;
    [|exists [FetchPrice; GroupLoad; LoadAllForOwner; LoadMyOrders];
      rewrite <- !app_assoc; by repeat constructor].
  match goal with
  | |- context [refresh_side collaborators self BUY ?c ?p ?s ?w0] =>
      destruct (refresh_side collaborators self BUY c p s w0) as [[[]|e] w5] eqn:Hbuy;
      apply refresh_side_spec in Hbuy as (buy_ops & Hcalls5 & Hprefix5 & _)
  end; cbn in Hcalls5.
  - match goal with
    | |- context [refresh_side collaborators self SELL ?c ?p ?s ?w0] =>
        destruct (refresh_side collaborators self SELL c p s w0) as [r w6] eqn:Hsell;
        apply refresh_side_spec in Hsell as (sell_ops & Hcalls6 & Hprefix6 & _)
    end.
    exists ([FetchPrice; GroupLoad; LoadAllForOwner; LoadMyOrders] ++ buy_ops ++ sell_ops).
    cbn [snd]. rewrite Hcalls6, Hcalls5, <- !app_assoc. split; [done|].
    repeat apply Forall_app_2; try by repeat constructor.
    + eapply prefix_Forall; [exact Hprefix5|]. apply side_plan_market_operations.
    + eapply prefix_Forall; [exact Hprefix6|]. apply side_plan_market_operations.
  - exists ([FetchPrice; GroupLoad; LoadAllForOwner; LoadMyOrders] ++ buy_ops).
    cbn [snd]. rewrite Hcalls5, <- !app_assoc. split; [done|].
    repeat apply Forall_app_2; try by repeat constructor.
    eapply prefix_Forall; [exact Hprefix5|]. apply side_plan_market_operations.
Qed.

(** The body of the iteration once the price, the inventory, the sizes
    and the current orders are there: the market operations are a
    prefix of the plan of the BUY side followed by the plan of the SELL
    side, and the whole of it when the body returns. *)
Lemma iteration_body_plan self w (price : @Price Token) (env1 env2 env3 env4 : Env)
    (group : Group) (account : Account) (accounts : list Account)
    (buy_size sell_size : Decimal) (current_orders : list Order) :
  fetch_price collaborators (env w) = (Ok price, env1) ->
  group_load collaborators env1 = (Ok group, env2) ->
  load_all_for_owner collaborators group env2 = (Ok (account :: accounts), env3) ->
  calculate_order_sizes quotient collaborators self price (net_assets collaborators account)
  = Ok (buy_size, sell_size) ->
  load_my_orders collaborators env3 = (Ok current_orders, env4) ->
  let bid := (calculate_order_prices self price).1 in
  let ask := (calculate_order_prices self price).2 in
  let plan := side_plan self BUY current_orders bid buy_size
              ++ side_plan self SELL current_orders ask sell_size in
  exists ops,
    calls (iteration_body quotient collaborators self w).2
    = calls w ++ [FetchPrice; GroupLoad; LoadAllForOwner; LoadMyOrders] ++ ops
    /\ ops `prefix_of` plan
    /\ ((iteration_body quotient collaborators self w).1 = Ok tt -> ops = plan).
Proof.
  intros Hprice Hgroup Haccounts Hsizes Horders. cbv zeta.
  unfold iteration_body, fetch_inventory. unfold_monad.
  rewrite Hprice. cbn. rewrite Hgroup. cbn. rewrite Haccounts. cbn.
  rewrite Hsizes. cbn. rewrite Horders. cbn.
  match goal with
  | |- context [refresh_side collaborators self BUY ?c ?p ?s ?w0] =>
      destruct (refresh_side collaborators self BUY c p s w0) as [[[]|e] w5] eqn:Hbuy;
      apply refresh_side_spec in Hbuy as (buy_ops & Hcalls5 & Hprefix5 & Hwhole5)
  end; cbn in Hcalls5.
  - rewrite (Hwhole5 eq_refl) in Hcalls5.
    match goal with
    | |- context [refresh_side collaborators self SELL ?c ?p ?s ?w0] =>
        destruct (refresh_side collaborators self SELL c p s w0) as [r w6] eqn:Hsell;
        apply refresh_side_spec in Hsell as (sell_ops & Hcalls6 & Hprefix6 & Hwhole6)
    end.
    eexists. cbn [fst snd]. split; [|split].
    + rewrite Hcalls6, Hcalls5, <- !app_assoc. cbn [app]. reflexivity.
    + by apply prefix_app.
    + intros ->. by rewrite Hwhole6.
  - exists buy_ops. cbn [fst snd]. split; [|split].
    + rewrite Hcalls5, <- !app_assoc. reflexivity.
    + by apply prefix_app_r.
    + discriminate.
Qed.



(** X12.  When neither side requires action, the iteration asks nothing of
    the market: it loads the price, the inventory and the orders, and
    sleeps. *)
Theorem iteration_idle self w (price : @Price Token) (env1 env2 env3 env4 : Env)
    (group : Group) (account : Account) (accounts : list Account)
    (buy_size sell_size : Decimal) (current_orders : list Order) :
  fetch_price collaborators (env w) = (Ok price, env1) ->
  group_load collaborators env1 = (Ok group, env2) ->
  load_all_for_owner collaborators group env2 = (Ok (account :: accounts), env3) ->
  calculate_order_sizes quotient collaborators self price (net_assets collaborators account)
  = Ok (buy_size, sell_size) ->
  load_my_orders collaborators env3 = (Ok current_orders, env4) ->
  orders_require_action self (List.filter (on_side BUY) current_orders)
    (calculate_order_prices self price).1 buy_size = false ->
  orders_require_action self (List.filter (on_side SELL) current_orders)
    (calculate_order_prices self price).2 sell_size = false ->
  calls (iteration quotient collaborators self w).2
  = calls w ++ [FetchPrice; GroupLoad; LoadAllForOwner; LoadMyOrders;
                Sleep (timedelta_seconds (pause self))].
Proof.
  intros Hprice Hgroup Haccounts Hsizes Horders Hbuy Hsell.
  destruct (iteration_body_plan self w price env1 env2 env3 env4 group account accounts
              buy_size sell_size current_orders Hprice Hgroup Haccounts Hsizes Horders)
    as (ops & Hcalls & Hprefix & _).
  cbv zeta in Hprefix. unfold side_plan in Hprefix. cbv zeta in Hprefix.
  rewrite Hbuy, Hsell in Hprefix. apply prefix_nil_inv in Hprefix. subst ops.
  unfold iteration. unfold_monad. cbn [snd calls].
  by rewrite Hcalls, <- !app_assoc.
Qed.

(** X13.  An iteration never raises, whatever its collaborators do, and it
    ends with the one sleep it makes.  The sleep lasts
    [self.pause.seconds], the seconds part of the pause: always less
    than a day, and nothing at all for a pause of whole days. *)
Theorem iteration_always_sleeps self w :
  let seconds := timedelta_seconds (pause self) in
  (iteration quotient collaborators self w).1 = Ok tt
  /\ (exists d, calls (iteration quotient collaborators self w).2
                = calls w ++ d ++ [Sleep seconds]
                /\ Forall (fun c => is_sleep c = false) d)
  /\ (0 <= seconds < 86400)%Z
  /\ (forall days, pause self = (86400 * days)%Z -> seconds = 0%Z).
Proof.
  cbv zeta. unfold iteration. unfold_monad. cbn [fst snd calls]. repeat split.
  - destruct (iteration_body_calls self w) as (d & Hcalls & Hall).
    exists d. by rewrite Hcalls, <- app_assoc.
  - apply Z.mod_pos_bound. lia.
  - apply Z.mod_pos_bound. lia.
  - intros days ->. unfold timedelta_seconds. by rewrite Z.mul_comm, Z_mod_mult.
Qed.



End Properties.

(** The quotes of the fixtures, and quotes that rounding makes equal:
    with a mid price of 1 and a spread ratio of 1E-29 the bid and the
    ask both round to 1. *)
Example fixture_quotes :
  ((calculate_order_prices one_percent fake_price).1 == 99)%Q
  /\ ((calculate_order_prices one_percent fake_price).2 == 101)%Q
  /\ (half == 1 # 2)%Q.
Proof. split; [|split]; vm_compute; reflexivity. Qed.

Example rounding_closes_spread :
  ((calculate_order_prices hairline (mkPrice 1 "BTC" "USDT")).1
   == (calculate_order_prices hairline (mkPrice 1 "BTC" "USDT")).2)%Q.
Proof. vm_compute. reflexivity. Qed.

Example crowded_iteration :
  calls (iteration exact_quotient (fake_collaborators crowded) one_percent fresh).2
  = [FetchPrice; GroupLoad; LoadAllForOwner; LoadMyOrders;
     CancelOrder (buy 99 5); CancelOrder (buy 50 1);
     PlaceOrder BUY POST_ONLY (Decimal_sub 100 (Decimal_mul 100 (1 # 100))) half;
     CancelOrder (sell 101 5);
     PlaceOrder SELL POST_ONLY (Decimal_add 100 (Decimal_mul 100 (1 # 100))) half;
     Sleep 10].
Proof. reflexivity. Qed.





Lemma iteration_idle_witness :
  calls (iteration exact_quotient (fake_collaborators settled) one_percent fresh).2
  = calls fresh ++ [FetchPrice; GroupLoad; LoadAllForOwner; LoadMyOrders;
                    Sleep (timedelta_seconds (pause one_percent))].
Proof.
  apply (iteration_idle exact_quotient (fake_collaborators settled) one_percent
           fresh fake_price 1%nat 2%nat 3%nat 4%nat tt fake_inventory [] half half settled);
    reflexivity.
Defined.


End SimpleLoop.

(** ** [MarketMaker.pulse]: outcomes, data flow and completion *)

Module PulseOutcomes.

Import MarketMaker.

Section Outcomes.

Context {Env exn Wallet Context Instruction Tracker : Type}.

Local Abbreviation MarketMaker' :=
  (@MarketMaker Env exn Wallet Context Instruction Tracker).
Local Abbreviation World' := (@World Env exn Instruction Tracker).
Local Abbreviation Event' := (@Event exn Instruction).
Local Abbreviation Batch := (@CombinableInstructions Instruction).


(** A call made before the submission that returned. *)
Definition succeeded (ev : Event') : bool :=
  match ev with
  | FromWallet (Some _) | ChainProcess (Some _) | ExistingOrders (Some _)
  | Reconcile _ _ (Some _) | BuildCancelOrder _ _ (Some _) | RandomClientId (Some _)
  | Track _ (Some _) | BuildPlaceOrder _ (Some _) | BuildCrank (Some _)
  | BuildSettle (Some _) | BuildRedeem (Some _) => true
  | _ => false
  end.

(** The orders whose cancellation was requested, each with the
    [ok_if_missing] flag of the request. *)
Definition cancel_requests (d : list Event') : list (Order * bool) :=
  omap (fun ev => match ev with
                  | BuildCancelOrder o ok_if_missing _ => Some (o, ok_if_missing)
                  | _ => None
                  end) d.

(** The collaborators of a market maker none of whose calls raises,
    and whose chain does not set [not_quoting]. *)
Record reliable (self : MarketMaker') (context : Context) : Prop := mkReliable {
  from_wallet_returns : forall env, exists payer env',
    from_wallet (mango self) (wallet self) env = (Ok payer, env');
  process_returns : forall model_state env, exists desired model_state' env',
    process (desired_orders_chain self) context model_state env
    = (Ok desired, model_state', env')
    /\ (not_quoting model_state = false -> not_quoting model_state' = false);
  existing_orders_returns : forall model_state tracker, exists existing tracker',
    existing_orders (order_tracker_ops self) model_state tracker
    = (Ok existing, tracker');
  reconcile_returns : forall model_state existing desired env, exists reconciled env',
    reconcile (order_reconciler self) model_state existing desired env
    = (Ok reconciled, env');
  build_cancel_order_returns : forall o ok_if_missing env, exists built env',
    build_cancel_order_instructions (market_instruction_builder self) o ok_if_missing env
    = (Ok built, env');
  random_client_id_returns : forall env, exists cid env',
    random_client_id (mango self) context env = (Ok cid, env');
  track_returns : forall o tracker, exists tracker',
    track (order_tracker_ops self) o tracker = (Ok tt, tracker');
  build_place_order_returns : forall o env, exists built env',
    build_place_order_instructions (market_instruction_builder self) o env
    = (Ok built, env');
  build_crank_returns : forall open_orders env, exists built env',
    build_crank_instructions (market_instruction_builder self) open_orders env
    = (Ok built, env');
  build_settle_returns : forall env, exists built env',
    build_settle_instructions (market_instruction_builder self) env = (Ok built, env');
  build_redeem_returns : forall env, exists built env',
    build_redeem_instructions (market_instruction_builder self) env = (Ok built, env');
  execute_returns : forall batch env, exists env',
    execute (mango self) batch context env = (Ok tt, env');
  now_returns : forall env, exists timestamp env',
    now (mango self) env = (Ok timestamp, env');
  pulse_complete_returns : forall timestamp env, exists env',
    on_next (pulse_complete self) timestamp env = (Ok tt, env')
}.

Implicit Types (self : MarketMaker') (w : World') (d pre post : list Event')
  (b : Batch) (context : Context).

Ltac unfold_monad :=
  unfold mbind, M_bind, mret, M_ret, bind, ret, emit, external, tracker_call,
    chain_process, get_model_state in *.




Lemma cancel_requests_cancel_events orders (builts : list (list Instruction)) :
  length builts = length orders ->
  cancel_requests (cancel_events orders builts) = (fun o => (o, true)) <$> orders.
Proof.
  revert builts.
  induction orders as [|o orders IH]; intros [|built builts] Hlen; try done.
  cbn. f_equal. apply IH. by injection Hlen.
Qed.

Lemma cancel_requests_place_events orders (outs : list (Z * list Instruction)) :
  cancel_requests (@place_events exn Instruction orders outs) = [].
Proof.
  revert outs.
  induction orders as [|o orders IH]; intros [|[cid built] outs]; try done.
  cbn. apply IH.
Qed.

(** X16.  Data flow of a pulse that reaches the submission: the first four
    calls are [from_wallet], the chain, the tracker's [existing_orders]
    and the reconciler, and the reconciler is given the orders the
    tracker returned as existing and the orders the chain returned as
    desired; every call before the submission, [track] included,
    returned. *)
Theorem pulse_data_flow self context w r w' d pre b post :
  pulse self context w = (r, w') ->
  trace w' = trace w ++ d ->
  d = pre ++ Execute b :: post ->
  (exists payer desired existing reconciled rest,
      pre = FromWallet (Some payer) :: ChainProcess (Some desired)
            :: ExistingOrders (Some existing)
            :: Reconcile existing desired (Some reconciled) :: rest)
  /\ Forall (fun ev => succeeded ev = true) pre.
Proof.
  intros Hpulse Htrace Hd.
  destruct (pulse_submission _ _ _ _ _ _ _ _ _ Hpulse Htrace Hd)
    as (payer & desired & tail & -> & Hpre & Hprepared & -> & Hpost & Htracking).
  destruct Hprepared as (existing & reconciled & builts & outs & crank & settle
                         & redeem_events & Hbuilts & Houts & -> & Hredeem).
  split; [by eexists _, _, _, _, _|].
  repeat apply Forall_cons_2; try done.
  apply Forall_app_2; [by apply cancel_events_Forall|].
  apply Forall_app_2; [by apply place_events_Forall|].
  repeat apply Forall_cons_2; try done.
  destruct (redeem_due self (model_state w')).
  - destruct Hredeem as [redeem ->]. by repeat constructor.
  - subst redeem_events. constructor.
Qed.

(** X17.  In a pulse that reaches the submission, the cancellations
    requested are those of the reconciler's [to_cancel], one request
    per order, in its order, each with [ok_if_missing=True]; and every
    cancellation of the submitted batch is for one of these orders. *)
Theorem pulse_cancels_to_cancel self context w r w' d pre b post :
  pulse self context w = (r, w') ->
  trace w' = trace w ++ d ->
  d = pre ++ Execute b :: post ->
  exists existing desired reconciled,
    Reconcile existing desired (Some reconciled) ∈ pre
    /\ cancel_requests pre = (fun o => (o, true)) <$> to_cancel reconciled
    /\ cancel_requests post = []
    /\ forall o i, Cancel o i ∈ b -> o ∈ to_cancel reconciled.
Proof.
  intros Hpulse Htrace Hd.
  destruct (pulse_submission _ _ _ _ _ _ _ _ _ Hpulse Htrace Hd)
    as (payer & desired & tail & -> & Hpre & Hprepared & -> & Hpost & Htracking).
  destruct Hprepared as (existing & reconciled & builts & outs & crank & settle
                         & redeem_events & Hbuilts & Houts & -> & Hredeem).
  assert (Hrequests :
            cancel_requests
              (FromWallet (Some payer) :: ChainProcess (Some desired)
               :: ExistingOrders (Some existing)
               :: Reconcile existing desired (Some reconciled)
               :: cancel_events (to_cancel reconciled) builts
               ++ place_events (to_place reconciled) outs
               ++ BuildCrank (Some crank) :: BuildSettle (Some settle) :: redeem_events)
            = (fun o => (o, true)) <$> to_cancel reconciled).
  { unfold cancel_requests at 1. cbn [omap list_omap]. rewrite !omap_app.
    fold (cancel_requests (cancel_events (to_cancel reconciled) builts)).
    fold (cancel_requests (@place_events exn Instruction (to_place reconciled) outs)).
    rewrite cancel_requests_cancel_events, cancel_requests_place_events by done.
    cbn [omap list_omap].
    destruct (redeem_due self (model_state w')).
    - destruct Hredeem as [redeem ->]. cbn. by rewrite app_nil_r.
    - subst redeem_events. cbn. by rewrite app_nil_r. }
  exists existing, desired, reconciled. split; [|split; [|split]].
  - do 3 apply list_elem_of_further. apply list_elem_of_here.
  - done.
  - clear -Hpost. induction Hpost as [|ev post Hev Hpost IH]; [done|].
    destruct ev; try discriminate; exact IH.
  - intros o i Hin. rewrite batch_of_prepared in Hin. rewrite !elem_of_app in Hin.
    destruct Hin as [Hin|[Hin|[Hin|[Hin|[Hin|Hin]]]]].
    + by apply list_elem_of_fmap in Hin as (? & [=] & _).
    + clear -Hin. revert builts Hin.
      induction (to_cancel reconciled) as [|o' orders IH]; intros [|built builts] Hin;
        try by apply elem_of_nil in Hin.
      cbn [cancel_events] in Hin. rewrite batch_of_cons in Hin.
      apply elem_of_app in Hin as [Hin|Hin].
      * apply list_elem_of_fmap in Hin as (? & [= -> ->] & _). apply list_elem_of_here.
      * apply list_elem_of_further. by eapply IH.
    + pose proof (@batch_of_place_events exn Instruction (to_place reconciled) outs)
        as Hall.
      rewrite Forall_forall in Hall. by specialize (Hall _ Hin).
    + by apply list_elem_of_fmap in Hin as (? & [=] & _).
    + by apply list_elem_of_fmap in Hin as (? & [=] & _).
    + destruct (redeem_due self (model_state w')).
      * destruct Hredeem as [redeem ->]. cbn in Hin. rewrite app_nil_r in Hin.
        by apply list_elem_of_fmap in Hin as (? & [=] & _).
      * subst redeem_events. by apply elem_of_nil in Hin.
Qed.

Lemma build_cancellations_returns self context orders :
  reliable self context ->
  forall (acc : Batch) w, exists cancellations w',
    build_cancellations self orders acc w = (Ok cancellations, w').
Proof.
  intros Hreliable.
  induction orders as [|o orders IH]; intros acc w; [by eexists _, _|].
  cbn [build_cancellations]. unfold_monad.
  destruct (build_cancel_order_returns _ _ Hreliable o true (env w))
    as (built & env1 & ->).
  apply IH.
Qed.

Lemma build_place_orders_returns self context orders :
  reliable self context ->
  forall (acc : Batch) w, exists place_orders w',
    build_place_orders self context orders acc w = (Ok place_orders, w').
Proof.
  intros Hreliable.
  induction orders as [|o orders IH]; intros acc w; [by eexists _, _|].
  cbn [build_place_orders]. unfold_monad.
  destruct (random_client_id_returns _ _ Hreliable (env w)) as (cid & env1 & ->).
  cbn.
  destruct (track_returns _ _ Hreliable (with_client_id o cid) (order_tracker w))
    as (tracker1 & ->).
  cbn.
  destruct (build_place_order_returns _ _ Hreliable (with_client_id o cid) env1)
    as (built & env2 & ->).
  apply IH.
Qed.

Lemma prepare_returns self context (payer : Batch) desired w :
  reliable self context ->
  exists batch w', prepare self context payer desired w = (Ok batch, w').
Proof.
  intros Hreliable. unfold prepare. unfold_monad. cbn.
  destruct (existing_orders_returns _ _ Hreliable (model_state w) (order_tracker w))
    as (existing & tracker1 & ->).
  cbn.
  destruct (reconcile_returns _ _ Hreliable (model_state w) existing desired (env w))
    as (reconciled & env1 & ->).
  match goal with
  | |- context [build_cancellations self ?orders ?acc ?w0] =>
      destruct (build_cancellations_returns self context orders Hreliable acc w0)
        as (cancellations & w2 & ->)
  end.
  destruct (build_place_orders_returns self context (to_place reconciled) Hreliable [] w2)
    as (place_orders & w3 & ->).
  destruct (build_crank_returns _ _ Hreliable [] (env w3)) as (crank & env4 & ->).
  cbn.
  destruct (build_settle_returns _ _ Hreliable env4) as (settle & env5 & ->).
  cbn.
  destruct (redeem_due self (model_state w3)); [|by eexists _, _].
  cbn.
  destruct (build_redeem_returns _ _ Hreliable env5) as (redeem & env6 & ->).
  by eexists _, _.
Qed.

(** X18.  When no collaborator raises, no subscriber of [pulse_complete]
    raises and the chain does not set [not_quoting], a pulse started
    while [not_quoting] is unset runs to its end and returns: it makes
    the calls of [prepared], each of which returns, submits one batch
    made of what these calls built, then reads the clock and hands the
    time read to [pulse_complete.on_next], its last call;
    [pulse_error] is not called. *)
Theorem pulse_completes self context w :
  reliable self context ->
  not_quoting (model_state w) = false ->
  exists w' payer desired tail timestamp env3 env4 env5,
    let pre := FromWallet (Some payer) :: ChainProcess (Some desired) :: tail in
    pulse self context w = (Ok tt, w')
    /\ trace w'
       = trace w ++ pre
         ++ [Execute (batch_of pre); Now (Some timestamp); PulseComplete timestamp]
    /\ prepared self (model_state w') desired tail
    /\ execute (mango self) (batch_of pre) context env3 = (Ok tt, env4)
    /\ now (mango self) env4 = (Ok timestamp, env5)
    /\ on_next (pulse_complete self) timestamp env5 = (Ok tt, env w').
Proof.
  intros Hreliable Hquoting.
  unfold pulse, pulse_body. unfold_monad. cbn.
  destruct (from_wallet_returns _ _ Hreliable (env w)) as (payer & env1 & ->).
  cbn.
  destruct (process_returns _ _ Hreliable (model_state w) env1)
    as (desired & model_state' & env2 & -> & Hkept).
  cbn. rewrite (Hkept Hquoting).
  match goal with
  | |- context [prepare self context ?p desired ?w0] =>
      destruct (prepare_returns self context p desired w0 Hreliable)
        as (batch & w3 & Hprepare)
  end.
  rewrite Hprepare.
  apply prepare_spec in Hprepare as (Hstate3 & d3 & Htrace3 & Hprep3 & Hprepared & -> & _).
  cbn in Htrace3, Hstate3, Hprepared.
  destruct (execute_returns _ _ Hreliable ((Payer <$> payer) ++ batch_of d3) (env w3))
    as (env4 & Hexecute).
  rewrite Hexecute. cbn.
  destruct (now_returns _ _ Hreliable env4) as (timestamp & env5 & Hnow).
  rewrite Hnow. cbn.
  destruct (pulse_complete_returns _ _ Hreliable timestamp env5) as (env6 & Hnext).
  rewrite Hnext.
  eexists _, payer, desired, d3, timestamp, (env w3), env4, env5. cbv zeta.
  split; [reflexivity|]. cbn [trace model_state env]. split; [|split].
  - rewrite Htrace3, <- !app_assoc. reflexivity.
  - by rewrite Hstate3.
  - by repeat split.
Qed.

End Outcomes.


Lemma pulse_data_flow_witness :
  (exists payer desired existing reconciled rest,
      calls_before
      = FromWallet (Some payer) :: ChainProcess (Some desired)
        :: ExistingOrders (Some existing)
        :: Reconcile existing desired (Some reconciled) :: rest)
  /\ Forall (fun ev => succeeded ev = true) calls_before.
Proof.
  apply (pulse_data_flow quoting tt start (Ok tt) (pulse quoting tt start).2
           (calls_before ++ Execute submitted :: calls_after)
           calls_before submitted calls_after);
    vm_compute; reflexivity.
Defined.

Lemma pulse_cancels_to_cancel_witness :
  exists existing desired reconciled,
    Reconcile existing desired (Some reconciled) ∈ calls_before
    /\ cancel_requests calls_before = (fun o => (o, true)) <$> to_cancel reconciled
    /\ cancel_requests calls_after = []
    /\ forall o i, Cancel o i ∈ submitted -> o ∈ to_cancel reconciled.
Proof.
  apply (pulse_cancels_to_cancel quoting tt start (Ok tt) (pulse quoting tt start).2
           (calls_before ++ Execute submitted :: calls_after)
           calls_before submitted calls_after);
    vm_compute; reflexivity.
Defined.

Lemma pulse_completes_witness :
  exists w' payer desired tail timestamp env3 env4 env5,
    let pre := FromWallet (Some payer) :: ChainProcess (Some desired) :: tail in
    pulse quoting tt start = (Ok tt, w')
    /\ trace w'
       = trace start ++ pre
         ++ [Execute (batch_of pre); Now (Some timestamp); PulseComplete timestamp]
    /\ prepared quoting (model_state w') desired tail
    /\ execute (mango quoting) (batch_of pre) tt env3 = (Ok tt, env4)
    /\ now (mango quoting) env4 = (Ok timestamp, env5)
    /\ on_next (pulse_complete quoting) timestamp env5 = (Ok tt, env w').
Proof.
  apply (pulse_completes quoting tt start); [|reflexivity].
  constructor; intros; cbn; try by eexists _, _.
  - eexists _, _, _. split; [reflexivity|]. done.
  - by eexists.
  - by eexists.
  - by eexists.
Defined.

End PulseOutcomes.
